(** * Verification of the advanced scraping script

    A shallow embedding of [advanced/advanced-scraping-example.js]: the
    row writer [writeCSV], the record matcher and the resumable main loop
    of the script, together with the promise-based waits it is built on.

    Conventions of the embedding.
    - A JavaScript string is a [string]; a character of it stands for one
      code unit below 256.
    - A finite JavaScript number that reaches [String(...)] in this script is
      either the result of [parseInt] (an integer) or of
      [parseFloat(x.toFixed(3))] (a multiple of 1/1000); such numbers are
      represented exactly, by their count of thousandths.  Match qualities,
      which are only compared, are rationals.
    - The browser is explicit state: the text of the textarea, the [csv]
      entry of localStorage, the location and the document of both iframes,
      and the list of externally visible actions taken so far.
    - An uncaught exception ([TypeError] on a missing element) ends the
      asynchronous main function; the state reached so far stays. *)

From Stdlib Require Import String Ascii List ZArith NArith QArith Qabs Qround Lia Bool.
From Stdlib Require Import DecimalString.
Import ListNotations.

Set Implicit Arguments.
Close Scope Q_scope.
Open Scope string_scope.

(* ================================================================= *)
(** ** JavaScript strings *)

Module JS.

Definition dquote : ascii := "034"%char.
Definition newline : ascii := "010"%char.

Definition str (c : ascii) : string := String c EmptyString.

(** [s.replace(/c/g, by)] for a one-character pattern. *)
Fixpoint replaceAll (c : ascii) (by_ : string) (s : string) : string :=
  match s with
  | EmptyString => EmptyString
  | String a rest =>
      if Ascii.eqb a c then by_ ++ replaceAll c by_ rest
      else String a (replaceAll c by_ rest)
  end.

(** [s.replace(c, by)] for a one-character string pattern: only the first
    occurrence is replaced. *)
Fixpoint replaceFirst (c : ascii) (by_ : string) (s : string) : string :=
  match s with
  | EmptyString => EmptyString
  | String a rest =>
      if Ascii.eqb a c then by_ ++ rest
      else String a (replaceFirst c by_ rest)
  end.

(** [arr.join(sep)] on an array of strings. *)
Definition join (sep : string) (arr : list string) : string :=
  String.concat sep arr.

(** [s.startsWith(p)]. *)
Definition startsWith (s p : string) : bool := String.prefix p s.

(** [s.match(/c/g)]: the array of matches, or [null] when there is none. *)
Fixpoint matchAll (c : ascii) (s : string) : list string :=
  match s with
  | EmptyString => []
  | String a rest =>
      if Ascii.eqb a c then str a :: matchAll c rest else matchAll c rest
  end.

Definition match_g (c : ascii) (s : string) : option (list string) :=
  match matchAll c s with
  | [] => None
  | m => Some m
  end.

(** White space and line terminators that [trim] strips. *)
Definition isWhiteSpace (a : ascii) : bool :=
  match nat_of_ascii a with
  | 9 | 10 | 11 | 12 | 13 | 32 | 160 => true
  | _ => false
  end.

Fixpoint trimStart (s : string) : string :=
  match s with
  | EmptyString => EmptyString
  | String a rest => if isWhiteSpace a then trimStart rest else s
  end.

Fixpoint trimEnd (s : string) : string :=
  match s with
  | EmptyString => EmptyString
  | String a rest =>
      match trimEnd rest with
      | EmptyString => if isWhiteSpace a then EmptyString else str a
      | t => String a t
      end
  end.

Definition trim (s : string) : string := trimEnd (trimStart s).

(** Decimal digits of a natural number, most significant first. *)
Definition decimal (n : N) : string :=
  NilEmpty.string_of_uint (N.to_uint n).

Fixpoint repeatChar (c : ascii) (n : nat) : string :=
  match n with
  | O => EmptyString
  | S k => String c (repeatChar c k)
  end.

(** [s.padStart(width, "0")]. *)
Definition padZero (width : nat) (s : string) : string :=
  repeatChar "0"%char (width - String.length s) ++ s.

(** *** Numbers *)

Inductive Number : Type :=
| NaN
| Thousandths (k : Z).

Definition ofInt (z : Z) : Number := Thousandths (1000 * z).

(** Fraction digits of [k/1000] without trailing zeros. *)
Definition fractionDigits (r : N) : string :=
  if (r mod 100 =? 0)%N then decimal (r / 100)
  else if (r mod 10 =? 0)%N then padZero 2 (decimal (r / 10))
  else padZero 3 (decimal r).

(** [String(x)] for a number (positional notation, which JavaScript uses
    for magnitudes from 1e-6 up to 1e21). *)
Definition Number_toString (x : Number) : string :=
  match x with
  | NaN => "NaN"
  | Thousandths k =>
      let m := Z.to_N (Z.abs k) in
      let sign := if (k <? 0)%Z then "-" else "" in
      let whole := decimal (m / 1000) in
      let r := (m mod 1000)%N in
      if (r =? 0)%N then sign ++ whole
      else sign ++ whole ++ "." ++ fractionDigits r
  end.

(** [parseFloat(q.toFixed(3))]: [toFixed] picks the integer [n] with
    [n / 1000] nearest to the magnitude, the larger one on a tie. *)
Definition roundThousandths (q : Q) : Number :=
  let n := Qfloor (Qabs q * 1000 + (1 # 2))%Q in
  Thousandths (if Qlt_le_dec q 0 then - n else n)%Z.

(** *** [parseInt] *)

Definition digitValue (a : ascii) : option N :=
  let n := N_of_ascii a in
  if ((48 <=? n) && (n <=? 57))%N then Some (n - 48)%N
  else if ((97 <=? n) && (n <=? 122))%N then Some (n - 87)%N
  else if ((65 <=? n) && (n <=? 90))%N then Some (n - 55)%N
  else None.

(** The longest prefix of digits below [radix], read as a number; [None]
    when the prefix is empty. *)
Fixpoint readDigits (radix : N) (acc : option N) (s : string) : option N :=
  match s with
  | EmptyString => acc
  | String a rest =>
      match digitValue a with
      | Some d =>
          if (d <? radix)%N then
            readDigits radix
              (Some (match acc with Some v => v * radix + d | None => d end)%N)
              rest
          else acc
      | None => acc
      end
  end.

(** [parseInt(s)] with no radix argument. *)
Definition parseInt (s : string) : Number :=
  let s1 := trimStart s in
  let (neg, s2) :=
    match s1 with
    | String "-"%char r => (true, r)
    | String "+"%char r => (false, r)
    | _ => (false, s1)
    end in
  let (radix, s3) :=
    match s2 with
    | String "0"%char (String "x"%char r) => (16%N, r)
    | String "0"%char (String "X"%char r) => (16%N, r)
    | _ => (10%N, s2)
    end in
  match readDigits radix None s3 with
  | None => NaN
  | Some v => ofInt (if neg then - Z.of_N v else Z.of_N v)
  end.

(** *** Dates *)

(** A valid [Date], by its UTC fields as the [getUTC...] methods name them
    (months count from 0). *)
Record Date : Type := mkDate {
  getUTCFullYear : Z;
  getUTCMonth : N;
  getUTCDate : N;
  getUTCHours : N;
  getUTCMinutes : N;
  getUTCSeconds : N;
  getUTCMilliseconds : N
}.

Definition isoYear (y : Z) : string :=
  if ((0 <=? y) && (y <=? 9999))%Z then padZero 4 (decimal (Z.to_N y))
  else (if (y <? 0)%Z then "-" else "+") ++ padZero 6 (decimal (Z.to_N (Z.abs y))).

Definition isoDatePart (d : Date) : string :=
  isoYear (getUTCFullYear d) ++ "-" ++
  padZero 2 (decimal (getUTCMonth d + 1)) ++ "-" ++
  padZero 2 (decimal (getUTCDate d)).

Definition isoTimePart (d : Date) : string :=
  padZero 2 (decimal (getUTCHours d)) ++ ":" ++
  padZero 2 (decimal (getUTCMinutes d)) ++ ":" ++
  padZero 2 (decimal (getUTCSeconds d)) ++ "." ++
  padZero 3 (decimal (getUTCMilliseconds d)).

Definition toISOString (d : Date) : string :=
  isoDatePart d ++ "T" ++ isoTimePart d ++ "Z".

(** *** Values *)

(** The values a caller can pass to the row writer.  [Object t] is any
    value of another kind, given by the text [String(value)] returns for
    it. *)
Inductive Value : Type :=
| Null
| Undefined
| Num (x : Number)
| Boolean (b : bool)
| DateObj (d : Date)
| Str (s : string)
| Object (toStringText : string).

End JS.

(* ================================================================= *)
(** ** Data of the script *)

(** A row of [matches-to-look-up.csv], as [loadSimpleCSV] returns it: every
    column is text. *)
Module SourceMatch.
Record t : Type := mk {
  div : string;
  matchdate : string;
  hometeam : string;
  awayteam : string;
  homegoals : string;
  awaygoals : string
}.
End SourceMatch.

(** A match listed on a date index page, as [getMatches] returns it. *)
Module PageMatch.
Record t : Type := mk {
  home : string;
  score : string;
  away : string;
  URL : string;
  div : string
}.
End PageMatch.

(** A goal read from a match page. *)
Module Goal.
Record t : Type := mk {
  minute : JS.Number;
  team : string;
  score : string
}.
End Goal.

(** What the script reads of a match page.  An element is given by its
    [textContent]; an element looked up with [querySelector] is [None] when
    the page has none. *)
Module DOM.

Record Element : Type := mkElement {
  textContent : string;
  previousElementSibling : option string
}.

(** A row of [table.matches.events]: the [td div] elements in document
    order, and the [.minute] element under [.player-a] and [.player-b]. *)
Record EventsRow : Type := mkEventsRow {
  tdDivs : list string;
  playerA_minute : option string;
  playerB_minute : option string
}.

(** An item of [ul.scorer-info]: its [.score] element, and the [.minute]
    element of the first and of a later [.scorer]. *)
Record ScorerItem : Type := mkScorerItem {
  scoreElement : option string;
  firstScorer_minute : option string;
  otherScorer_minute : option string
}.

Record MatchDocument : Type := mkMatchDocument {
  detailsSpans : list Element;
  detailsDds : list Element;
  eventsRows : list EventsRow;
  scorerItems : list ScorerItem
}.

Definition blank : MatchDocument := mkMatchDocument [] [] [] [].

End DOM.

(** The site: the matches [getMatches] finds on the index page of a URL
    when it has just loaded and once the UK listing has replaced the first
    one, and the document of each match page. *)
Record Web : Type := mkWeb {
  indexOnLoad : string -> list PageMatch.t;
  indexUK : string -> list PageMatch.t;
  matchDocument : string -> DOM.MatchDocument
}.

(** The interface of [trigrams.js], which the script loads and which is
    not part of the sources at hand: [new Trigrams(text)] and
    [a.matchQualityWith(b)]. *)
Class TrigramsLib : Type := {
  Trigrams : Type;
  newTrigrams : string -> Trigrams;
  matchQualityWith : Trigrams -> Trigrams -> Q
}.

(* ================================================================= *)
(** ** Browser state and the script monad *)

Inductive Frame : Type := indexFrame | matchFrame.

(** The actions of the script that the outside can see. *)
Inductive Action : Type :=
| Navigate (frame : Frame) (URL : string)
| Sleep (min max : Z)
| ClickUK
| WriteCSV (values : list JS.Value).

Record Browser : Type := mkBrowser {
  textarea_value : string;
  localStorage_csv : option string;
  indexFrame_href : string;
  indexFrame_matches : list PageMatch.t;
  matchFrame_href : string;
  matchFrame_document : DOM.MatchDocument;
  actions : list Action
}.

Inductive Error : Type := TypeError.

Inductive Completion (A : Type) : Type :=
| Normal (a : A)
| Throw (e : Error).
Arguments Throw {A} e.

Definition Script (A : Type) : Type := Browser -> Browser * Completion A.

Definition ret {A} (a : A) : Script A := fun b => (b, Normal a).

Definition bind {A B} (m : Script A) (k : A -> Script B) : Script B :=
  fun b =>
    match m b with
    | (b', Normal a) => k a b'
    | (b', Throw e) => (b', Throw e)
    end.

Definition gets {A} (f : Browser -> A) : Script A := fun b => (b, Normal (f b)).

Definition lift {A} (c : Completion A) : Script A := fun b => (b, c).

Definition emit (a : Action) (b : Browser) : Browser :=
  mkBrowser (textarea_value b) (localStorage_csv b) (indexFrame_href b)
    (indexFrame_matches b) (matchFrame_href b) (matchFrame_document b)
    (actions b ++ [a]).

Declare Scope script_scope.
Delimit Scope script_scope with script.
Notation "x <- m ;; k" := (bind m (fun x => k))
  (at level 61, m at next level, right associativity) : script_scope.
Notation "m ;; k" := (bind m (fun _ => k))
  (at level 61, right associativity) : script_scope.
Open Scope script_scope.

(** Exceptions inside an expression. *)
Definition bindC {A B} (c : Completion A) (k : A -> Completion B) : Completion B :=
  match c with
  | Normal a => k a
  | Throw e => Throw e
  end.

(** [arr.map(f)] with a callback that may throw. *)
Fixpoint mapC {A B} (f : A -> Completion B) (arr : list A) : Completion (list B) :=
  match arr with
  | [] => Normal []
  | x :: rest =>
      bindC (f x) (fun y => bindC (mapC f rest) (fun ys => Normal (y :: ys)))
  end.

(** [el.textContent] of a [querySelector] result. *)
Definition textContentOf (el : option string) : Completion string :=
  match el with
  | Some text => Normal text
  | None => Throw TypeError
  end.

(* ================================================================= *)
(** ** Utility functions of the script *)

(** The page starts (lines 32-39): fresh frames, and the textarea restored
    from localStorage, [localStorage.getItem('csv') || '']. *)
Definition pageLoad (stored : option string) : Browser :=
  mkBrowser (match stored with Some text => text | None => "" end)
    stored "about:blank" [] "about:blank" DOM.blank [].

(** The text of one column in [writeCSV]. *)
Definition column (value : JS.Value) : string :=
  match value with
  | JS.Null | JS.Undefined => ""                       (* value == null *)
  | JS.Num x => JS.Number_toString x                   (* t == 'number' *)
  | JS.Boolean b => if b then "1" else "0"             (* t == 'boolean' *)
  | JS.DateObj d =>                                    (* value instanceof Date *)
      JS.replaceFirst "Z" "" (JS.replaceFirst "T" " " (JS.toISOString d))
  | JS.Str text | JS.Object text =>
      JS.str JS.dquote
      ++ JS.replaceAll JS.dquote (JS.str JS.dquote ++ JS.str JS.dquote) text
      ++ JS.str JS.dquote
  end.

(** The row [writeCSV] appends for its arguments. *)
Definition rowText (values : list JS.Value) : string :=
  JS.join "," (map column values) ++ JS.str JS.newline.

(** [writeCSV(...values)]: the row goes to the textarea and the whole text
    to localStorage.  (Scrolling the textarea is left out.) *)
Definition writeCSV (values : list JS.Value) : Script unit :=
  fun b =>
    let value := textarea_value b ++ rowText values in
    (mkBrowser value (Some value) (indexFrame_href b) (indexFrame_matches b)
       (matchFrame_href b) (matchFrame_document b)
       (actions b ++ [WriteCSV values]),
     Normal tt).

(** [await openURLInFrame(URL, frame)]: the frame is at [URL] and shows its
    document when the load event resolves the promise. *)
Definition openURLInFrame (web : Web) (URL : string) (frame : Frame) : Script unit :=
  fun b =>
    match frame with
    | indexFrame =>
        (mkBrowser (textarea_value b) (localStorage_csv b) URL
           (indexOnLoad web URL) (matchFrame_href b) (matchFrame_document b)
           (actions b ++ [Navigate indexFrame URL]),
         Normal tt)
    | matchFrame =>
        (mkBrowser (textarea_value b) (localStorage_csv b) (indexFrame_href b)
           (indexFrame_matches b) URL (matchDocument web URL)
           (actions b ++ [Navigate matchFrame URL]),
         Normal tt)
    end.

(** [await sleepBetween(min, max)]. *)
Definition sleepBetween (min max : Z) : Script unit :=
  fun b => (emit (Sleep min max) b, Normal tt).

(** [await clickUK()]: when the promise resolves the index frame shows the
    UK listing of the page it is at. *)
Definition clickUK (web : Web) : Script unit :=
  fun b =>
    (mkBrowser (textarea_value b) (localStorage_csv b) (indexFrame_href b)
       (indexUK web (indexFrame_href b)) (matchFrame_href b)
       (matchFrame_document b) (actions b ++ [ClickUK]),
     Normal tt).

(** [getMatches()]: the matches of the document the index frame shows.  The
    document is kept as this list; how lines 144-153 read it off the
    markup is not modelled. *)
Definition getMatches : Script (list PageMatch.t) := gets indexFrame_matches.

(** [leagueMap]. *)
Definition leagueMap : list (string * string) :=
  [ ("E0", "england/premier-league");
    ("E1", "england/championship");
    ("E2", "england/league-one");
    ("E3", "england/league-two");
    ("EC", "england/conference");
    ("SC0", "scotland/premier-league");
    ("SC1", "scotland/first-division");
    ("SC2", "scotland/second-division");
    ("SC3", "scotland/third-division") ].

(** [obj[key]] on the properties listed in the object; [None] is
    [undefined].  (Names that every object inherits, such as
    [constructor], are not division codes and are left out.) *)
Fixpoint property (obj : list (string * string)) (key : string) : option string :=
  match obj with
  | [] => None
  | (k, v) :: rest => if String.eqb k key then Some v else property rest key
  end.

(** The search string [startsWith] makes of its argument. *)
Definition searchString (arg : option string) : string :=
  match arg with
  | Some text => text
  | None => "undefined"
  end.

(* ================================================================= *)
(** ** The main loop *)

Definition dateURL (sourceMatch : SourceMatch.t) : string :=
  "https://uk.soccerway.com/matches/"
  ++ JS.replaceAll "-" "/" (SourceMatch.matchdate sourceMatch) ++ "/".

(** Lines 175-179: load the index page unless the frame is at it already. *)
Definition loadIndexPage (web : Web) (dateURL : string) : Script unit :=
  href <- gets indexFrame_href ;;
  if negb (String.eqb href dateURL) then
    openURLInFrame web dateURL indexFrame ;;
    sleepBetween 1 2 ;;
    clickUK web
  else ret tt.

(** Lines 183-186: the filter by score and division. *)
Definition sameScoreAndLeague (sourceMatch : SourceMatch.t) (pageMatch : PageMatch.t) : bool :=
  String.eqb (PageMatch.score pageMatch)
    (SourceMatch.homegoals sourceMatch ++ " - " ++ SourceMatch.awaygoals sourceMatch)
  && JS.startsWith (PageMatch.div pageMatch)
       (searchString (property leagueMap (SourceMatch.div sourceMatch))).

Definition matchingPageMatches (sourceMatch : SourceMatch.t)
    (pageMatches : list PageMatch.t) : list PageMatch.t :=
  filter (sameScoreAndLeague sourceMatch) pageMatches.

(** [a > b] on qualities. *)
Definition Qgtb (a b : Q) : bool := negb (Qle_bool a b).

Section WithTrigrams.
Context {TL : TrigramsLib}.

Definition qualityOf (sourceMatch : SourceMatch.t) (match_ : PageMatch.t) : Q :=
  let sourceTrigrams :=
    newTrigrams (SourceMatch.hometeam sourceMatch ++ "  " ++ SourceMatch.awayteam sourceMatch) in
  let trigrams := newTrigrams (PageMatch.home match_ ++ "  " ++ PageMatch.away match_) in
  matchQualityWith trigrams sourceTrigrams.

(** Lines 190-199: [bestMatch] and [bestMatchQuality] after the [forEach]. *)
Definition pickBest (sourceMatch : SourceMatch.t)
    (matching : list PageMatch.t) : option PageMatch.t * Q :=
  fold_left
    (fun (best : option PageMatch.t * Q) (match_ : PageMatch.t) =>
       let (bestMatch, bestMatchQuality) := best in
       let matchQuality := qualityOf sourceMatch match_ in
       if Qgtb matchQuality bestMatchQuality then (Some match_, matchQuality)
       else (bestMatch, bestMatchQuality))
    matching (None, 0%Q).

(** [els.find(el => el.previousElementSibling.textContent == label)]. *)
Fixpoint findAfter (label : string) (els : list DOM.Element) : Completion (option DOM.Element) :=
  match els with
  | [] => Normal None
  | el :: rest =>
      bindC (textContentOf (DOM.previousElementSibling el)) (fun text =>
        if String.eqb text label then Normal (Some el) else findAfter label rest)
  end.

(** Lines 212-216: the kick-off time. *)
Definition getKickOff (doc : DOM.MatchDocument) : Completion string :=
  bindC (findAfter "KO" (DOM.detailsSpans doc)) (fun span =>
    bindC (match span with
           | Some el => Normal (Some el)
           | None => findAfter "Kick-off" (DOM.detailsDds doc)
           end) (fun kickOffEl =>
      match kickOffEl with
      | Some el => Normal (JS.trim (DOM.textContent el))
      | None => Throw TypeError
      end)).

(** The body shared by both layouts once the elements are found. *)
Definition goalOf (score : string) (homeMin awayMin : option string) : Completion Goal.t :=
  let team := match homeMin with Some _ => "home" | None => "away" end in
  bindC (match homeMin with
         | Some text => Normal text
         | None => textContentOf awayMin
         end) (fun text =>
    Normal (Goal.mk (JS.parseInt text) team score)).

(** Lines 220-227: Scotland-style goals. *)
Definition scotlandGoals (doc : DOM.MatchDocument) : Completion (list Goal.t) :=
  mapC (fun tr =>
          bindC (textContentOf (nth_error (DOM.tdDivs tr) 1)) (fun score =>
            goalOf score (DOM.playerA_minute tr) (DOM.playerB_minute tr)))
       (DOM.eventsRows doc).

(** Lines 230-237: England-style goals. *)
Definition englandGoals (doc : DOM.MatchDocument) : Completion (list Goal.t) :=
  mapC (fun li =>
          bindC (textContentOf (DOM.scoreElement li)) (fun score =>
            goalOf score (DOM.firstScorer_minute li) (DOM.otherScorer_minute li)))
       (DOM.scorerItems doc).

(** Lines 220-237 together. *)
Definition getGoals (doc : DOM.MatchDocument) : Completion (list Goal.t) :=
  bindC (scotlandGoals doc) (fun goals =>
    if Nat.eqb (List.length goals) 0 then englandGoals doc else Normal goals).

(** Line 249: the text of the goals column. *)
Definition goalText (goal : Goal.t) : string :=
  JS.Number_toString (Goal.minute goal) ++ " : " ++ Goal.team goal ++ " : " ++ Goal.score goal.

Definition goalsText (goals : list Goal.t) : string :=
  JS.join " / " (map goalText goals).

(** [bestMatch ? bestMatch.field : null]. *)
Definition fieldOrNull (bestMatch : option PageMatch.t) (field : PageMatch.t -> string) : JS.Value :=
  match bestMatch with
  | Some m => JS.Str (field m)
  | None => JS.Null
  end.

(** Lines 241-253: the arguments of [writeCSV]. *)
Definition rowValues (sourceMatch : SourceMatch.t) (kickOff : JS.Value)
    (goals : list Goal.t) (bestMatch : option PageMatch.t) (bestMatchQuality : Q)
    : list JS.Value :=
  [ JS.Str (SourceMatch.div sourceMatch);
    JS.Str (SourceMatch.matchdate sourceMatch);
    JS.Str (SourceMatch.hometeam sourceMatch);
    JS.Str (SourceMatch.awayteam sourceMatch);
    JS.Num (JS.parseInt (SourceMatch.homegoals sourceMatch));
    JS.Num (JS.parseInt (SourceMatch.awaygoals sourceMatch));
    kickOff;
    JS.Str (goalsText goals);
    JS.Num (JS.roundThousandths bestMatchQuality);
    fieldOrNull bestMatch PageMatch.home;
    fieldOrNull bestMatch PageMatch.away ].

(** Lines 204-238: the data of the matched football match. *)
Definition retrieve (web : Web) (bestMatch : option PageMatch.t)
    : Script (JS.Value * list Goal.t) :=
  match bestMatch with
  | Some m =>
      sleepBetween 1 2 ;;
      openURLInFrame web (PageMatch.URL m) matchFrame ;;
      doc <- gets matchFrame_document ;;
      kickOff <- lift (getKickOff doc) ;;
      goals <- lift (getGoals doc) ;;
      ret (JS.Str kickOff, goals)
  | None => ret (JS.Null, [])
  end.

(** Lines 169-255: one pass of the loop body. *)
Definition processMatch (web : Web) (sourceMatch : SourceMatch.t) : Script unit :=
  loadIndexPage web (dateURL sourceMatch) ;;
  pageMatches <- getMatches ;;
  let matching := matchingPageMatches sourceMatch pageMatches in
  let (bestMatch, bestMatchQuality) := pickBest sourceMatch matching in
  detail <- retrieve web bestMatch ;;
  writeCSV (rowValues sourceMatch (fst detail) (snd detail) bestMatch bestMatchQuality) ;;
  sleepBetween 2 5.

(** The [for] loop of line 167 from [csvIndex] on; [fuel] bounds the
    passes, and [csvLen - csvIndex] of them reach the end. *)
Fixpoint mainLoop (web : Web) (csv : list SourceMatch.t) (fuel csvIndex : nat) : Script unit :=
  match fuel with
  | O => ret tt
  | S fuel' =>
      match nth_error csv csvIndex with
      | None => ret tt
      | Some sourceMatch =>
          processMatch web sourceMatch ;;
          mainLoop web csv fuel' (S csvIndex)
      end
  end.

(** Line 166 and the start value of [csvIndex]. *)
Definition resumeOffset (value : string) : nat :=
  match JS.match_g JS.newline value with
  | Some newlines => List.length newlines
  | None => 0
  end.

(** The main function, from line 166 on, with the parsed input [csv]. *)
Definition main (web : Web) (csv : list SourceMatch.t) : Script unit :=
  value <- gets textarea_value ;;
  let csvIndex := resumeOffset value in
  mainLoop web csv (List.length csv - csvIndex) csvIndex.

(** A run of the script in a freshly loaded page. *)
Definition run (web : Web) (csv : list SourceMatch.t) (stored : option string) : Browser :=
  fst (main web csv (pageLoad stored)).

(** A run that is stopped (the page reloaded) after [n] passes. *)
Definition runFor (web : Web) (csv : list SourceMatch.t) (n : nat) : Browser * Completion unit :=
  mainLoop web csv n 0 (pageLoad None).

End WithTrigrams.

(* ================================================================= *)
(** ** The wait for the refreshed listing, inside [clickUK] *)

Module Observer.

(** A [childList] mutation record of the watched element. *)
Record MutationRecord : Type := mkRecord {
  addedNodes : list string;
  removedNodes : list string
}.

(** The observer and the promise of one call of [clickUK]: whether the
    observer is connected, how many batches of records have been delivered
    to it, and the batches (by number) at which [resolve] was called. *)
Record Wait : Type := mkWait {
  connected : bool;
  delivered : nat;
  resolvedAt : list nat
}.

(** [observer.observe(subtree, { childList: true })] on a new observer. *)
Definition observe : Wait := mkWait true 0 [].

(** The callback given to [new MutationObserver] (lines 128-136), called
    with batch number [delivered w]. *)
Definition callback (mutations : list MutationRecord) (w : Wait) : Wait :=
  let removedOverlay :=
    existsb (fun mutation => Nat.ltb 0 (List.length (removedNodes mutation))) mutations in
  if removedOverlay then
    mkWait false (S (delivered w)) (resolvedAt w ++ [delivered w])
  else mkWait (connected w) (S (delivered w)) (resolvedAt w).

(** The browser hands a batch of records to the callback of a connected
    observer; a disconnected observer receives nothing. *)
Definition deliver (w : Wait) (mutations : list MutationRecord) : Wait :=
  if connected w then callback mutations w else w.

(** The wait after the given batches, in order. *)
Definition after (batches : list (list MutationRecord)) : Wait :=
  fold_left deliver batches observe.

Definition hasRemoval (mutations : list MutationRecord) : Prop :=
  exists mutation, In mutation mutations /\ removedNodes mutation <> [].

End Observer.

(* ================================================================= *)
(** ** The one-time listener of [openURLInFrame] *)

Module Listeners.

(** The [load] listeners of a frame: the function objects registered, each
    with the listener it wraps, and the listeners called so far.  A function
    object is known by a number; [nextId] is the next one to be made. *)
Record EventTarget : Type := mkTarget {
  nextId : nat;
  registered : list (nat * nat);
  called : list nat
}.

Definition isRegistered (wrapped : nat) (t : EventTarget) : bool :=
  existsb (fun entry => Nat.eqb (fst entry) wrapped) (registered t).

(** [element.removeEventListener(event, wrappedListener)]. *)
Definition removeEventListener (wrapped : nat) (t : EventTarget) : EventTarget :=
  mkTarget (nextId t)
    (filter (fun entry => negb (Nat.eqb (fst entry) wrapped)) (registered t))
    (called t).

(** [wrappedListener] (lines 88-91): it removes itself, then calls
    [listener]. *)
Definition wrappedListener (wrapped listener : nat) (t : EventTarget) : EventTarget :=
  let t' := removeEventListener wrapped t in
  mkTarget (nextId t') (registered t') (called t' ++ [listener]).

(** [addOneTimeEventListener(element, event, listener)] (lines 87-93). *)
Definition addOneTimeEventListener (listener : nat) (t : EventTarget) : EventTarget :=
  mkTarget (S (nextId t)) (registered t ++ [(nextId t, listener)]) (called t).

(** The event fires: the listeners registered at that moment are called in
    order, except those removed in the meantime. *)
Definition dispatch (t : EventTarget) : EventTarget :=
  fold_left
    (fun t' entry =>
       if isRegistered (fst entry) t' then wrappedListener (fst entry) (snd entry) t'
       else t')
    (registered t) t.

Fixpoint dispatches (n : nat) (t : EventTarget) : EventTarget :=
  match n with
  | O => t
  | S k => dispatches k (dispatch t)
  end.

End Listeners.

(* ================================================================= *)
(** ** A trigram index for the examples *)

(** Modelled from the spec: [trigrams.js] is missing from the sources; the
    text is case-folded and its white space collapsed, the trigrams are
    all the substrings of length 3, and the similarity of two multisets of
    trigrams is the size of their intersection over the size of their
    union (0 when both are empty). *)
Module SpecTrigrams.

Definition toLower (a : ascii) : ascii :=
  let n := N_of_ascii a in
  if ((65 <=? n) && (n <=? 90))%N then ascii_of_N (n + 32) else a.

(** Modelled from the spec: the normalization of [trigrams.js], which is
    missing; case-fold, and turn each run of white space into one space. *)
Fixpoint normalize (afterSpace : bool) (s : string) : string :=
  match s with
  | EmptyString => EmptyString
  | String a rest =>
      if JS.isWhiteSpace a then
        if afterSpace then normalize true rest
        else String " "%char (normalize true rest)
      else String (toLower a) (normalize false rest)
  end.

Fixpoint shingles (s : string) : list string :=
  match s with
  | String a (String b (String c _ as rest2) as rest1) =>
      String a (String b (String c EmptyString)) :: shingles rest1
  | _ => []
  end.

(** Modelled from the spec: [new Trigrams(text)] of the missing
    [trigrams.js]; all substrings of length 3 of the normalized text. *)
Definition toTrigrams (text : string) : list string :=
  shingles (normalize false text).

(** Remove one occurrence of [x], if there is one. *)
Fixpoint removeOne (x : string) (l : list string) : option (list string) :=
  match l with
  | [] => None
  | y :: rest =>
      if String.eqb x y then Some rest
      else match removeOne x rest with
           | Some rest' => Some (y :: rest')
           | None => None
           end
  end.

(** The size of the multiset intersection. *)
Fixpoint common (a b : list string) : nat :=
  match a with
  | [] => 0
  | x :: rest =>
      match removeOne x b with
      | Some b' => S (common rest b')
      | None => common rest b
      end
  end.

(** Modelled from the spec: [matchQualityWith] of the missing
    [trigrams.js]; the size of the intersection over the size of the
    union. *)
Definition similarity (a b : list string) : Q :=
  let shared := common a b in
  let union := (List.length a + List.length b - shared)%nat in
  match union with
  | O => 0%Q
  | S _ => Qmake (Z.of_nat shared) (Pos.of_nat union)
  end.

#[export] Instance lib : TrigramsLib := {
  Trigrams := list string;
  newTrigrams := toTrigrams;
  matchQualityWith := similarity
}.

End SpecTrigrams.

(* ================================================================= *)
(** ** The fixture of the end-to-end scenario *)

Module Scenario.

Definition fixture : SourceMatch.t :=
  SourceMatch.mk "E0" "2018-01-01" "Town FC" "City FC" "2" "1".

Definition detailURL : string :=
  "https://uk.soccerway.com/matches/2018/01/01/england/premier-league/town/city/1/".

Definition candidate : PageMatch.t :=
  PageMatch.mk "Town F.C." "2 - 1" "City F.C." detailURL "england/premier-league".

(** The same candidate listed with another score. *)
Definition otherScore : PageMatch.t :=
  PageMatch.mk "Town F.C." "1 - 1" "City F.C." detailURL "england/premier-league".

(** A candidate of the same score and division whose names share no
    trigram with the fixture's. *)
Definition stranger : PageMatch.t :=
  PageMatch.mk "Wanderers" "2 - 1" "Athletic" detailURL "england/premier-league".

(** The match page: kick-off 15:00, goals at 10 (home, 1-0), 55 (away,
    1-1) and 80 (home, 2-1), in the England-style layout. *)
Definition detail : DOM.MatchDocument :=
  DOM.mkMatchDocument []
    [ DOM.mkElement "Sat 1 Jan" (Some "Date"); DOM.mkElement " 15:00 " (Some "Kick-off") ]
    []
    [ DOM.mkScorerItem (Some "1-0") (Some "10'") None;
      DOM.mkScorerItem (Some "1-1") None (Some "55'");
      DOM.mkScorerItem (Some "2-1") (Some "80'") None ].

(** The same page with a line break after each score, as markup that puts
    the closing tag on a line of its own gives it. *)
Definition detailBroken : DOM.MatchDocument :=
  DOM.mkMatchDocument []
    [ DOM.mkElement "15:00" (Some "Kick-off") ]
    []
    [ DOM.mkScorerItem (Some (String "1" (String "-" (String "0" (JS.str JS.newline)))))
        (Some "10'") None ].

(** The first goal in the Scotland-style layout, on a page whose
    England-style list holds an item without a score. *)
Definition detailScotland : DOM.MatchDocument :=
  DOM.mkMatchDocument
    [ DOM.mkElement "15:00" (Some "KO") ]
    []
    [ DOM.mkEventsRow ["Town F.C."; "1-0"] (Some "10'") None ]
    [ DOM.mkScorerItem None None None ].

Definition web (listing : list PageMatch.t) (doc : DOM.MatchDocument) : Web :=
  mkWeb (fun _ => []) (fun _ => listing) (fun _ => doc).

Definition goals : list Goal.t :=
  [ Goal.mk (JS.ofInt 10) "home" "1-0";
    Goal.mk (JS.ofInt 55) "away" "1-1";
    Goal.mk (JS.ofInt 80) "home" "2-1" ].

End Scenario.

(* ================================================================= *)
(** ** Notions used in the statements *)

Fixpoint hasChar (c : ascii) (s : string) : bool :=
  match s with
  | EmptyString => false
  | String a rest => Ascii.eqb a c || hasChar c rest
  end.

Fixpoint allChars (p : ascii -> bool) (s : string) : bool :=
  match s with
  | EmptyString => true
  | String a rest => p a && allChars p rest
  end.

Definition isDigit (a : ascii) : bool :=
  let n := N_of_ascii a in ((48 <=? n) && (n <=? 57))%N.



(** The text between the quotes of a quoted column, character by
    character: a double quote is written twice. *)
Definition doubled (text : list ascii) : list ascii :=
  flat_map (fun a => if Ascii.eqb a JS.dquote then [JS.dquote; JS.dquote] else [a]) text.


Definition isNavigate (frame : Frame) (a : Action) : bool :=
  match a, frame with
  | Navigate indexFrame _, indexFrame => true
  | Navigate matchFrame _, matchFrame => true
  | _, _ => false
  end.

(** How many navigations of a frame a list of actions has. *)
Definition navigations (frame : Frame) (acts : list Action) : nat :=
  List.length (filter (isNavigate frame) acts).

(** The argument lists of the calls of [writeCSV], in order. *)
Fixpoint written (acts : list Action) : list (list JS.Value) :=
  match acts with
  | [] => []
  | WriteCSV values :: rest => values :: written rest
  | _ :: rest => written rest
  end.


(** What an action requires of the action before it ([None] at the
    start of the run) and of the actions after it. *)
Definition pacedAt (prev : option Action) (a : Action) (rest : list Action) : Prop :=
  match a with
  | Navigate matchFrame _ => prev = Some (Sleep 1 2)
  | Navigate indexFrame _ =>
      (prev = None \/ prev = Some (Sleep 2 5)) /\
      exists rest', rest = Sleep 1 2 :: ClickUK :: rest'
  | WriteCSV _ => exists rest', rest = Sleep 2 5 :: rest'
  | _ => True
  end.

Fixpoint paced (prev : option Action) (acts : list Action) : Prop :=
  match acts with
  | [] => True
  | a :: rest => pacedAt prev a rest /\ paced (Some a) rest
  end.

(** The last of the actions, or [prev] when there is none. *)
Fixpoint lastOr (prev : option Action) (acts : list Action) : option Action :=
  match acts with
  | [] => prev
  | a :: rest => lastOr (Some a) rest
  end.

(** Between passes: the actions so far are paced, and the last of them, if
    any, is the closing delay of a pass. *)
Definition atBoundary (acts : list Action) : Prop :=
  paced None acts /\
  (lastOr None acts = None \/ lastOr None acts = Some (Sleep 2 5)).

(** Every navigation has a delay somewhere before it. *)
Definition everyNavigationDelayed (acts : list Action) : Prop :=
  forall (pre : list Action) frame URL post,
    acts = (pre ++ Navigate frame URL :: post)%list ->
    exists min max, In (Sleep min max) pre.

Section Statements.
Context {TL : TrigramsLib}.

(** The index frame shows the UK listing of the page it is at, unless it
    is still blank. *)
Definition indexShown (web : Web) (b : Browser) : Prop :=
  indexFrame_href b = "about:blank" \/
  indexFrame_matches b = indexUK web (indexFrame_href b).

(** The textarea holds what localStorage holds. *)
Definition stored (b : Browser) : Prop :=
  textarea_value b = match localStorage_csv b with Some text => text | None => "" end.

(** The actions of lines 175-179 and of lines 208-209. *)
Definition indexActions (b : Browser) (dateURL : string) : list Action :=
  if String.eqb (indexFrame_href b) dateURL then []
  else [Navigate indexFrame dateURL; Sleep 1 2; ClickUK].

Definition detailActions (bestMatch : option PageMatch.t) : list Action :=
  match bestMatch with
  | Some m => [Sleep 1 2; Navigate matchFrame (PageMatch.URL m)]
  | None => []
  end.

(** [kickOff] and [goals] after lines 204-238, from the site alone. *)
Definition readDetail (web : Web) (bestMatch : option PageMatch.t)
    : Completion (JS.Value * list Goal.t) :=
  match bestMatch with
  | Some m =>
      let doc := matchDocument web (PageMatch.URL m) in
      bindC (getKickOff doc) (fun kickOff =>
        bindC (getGoals doc) (fun goals => Normal (JS.Str kickOff, goals)))
  | None => Normal (JS.Null, [])
  end.

(** The arguments one pass gives to [writeCSV], from the site alone. *)
Definition passRow (web : Web) (sourceMatch : SourceMatch.t) : Completion (list JS.Value) :=
  let matching :=
    matchingPageMatches sourceMatch (indexUK web (dateURL sourceMatch)) in
  let best := pickBest sourceMatch matching in
  bindC (readDetail web (fst best)) (fun detail =>
    Normal (rowValues sourceMatch (fst detail) (snd detail) (fst best) (snd best))).

(** The rows the passes over [sources] write, up to the first exception. *)
Fixpoint rowsOf (web : Web) (sources : list SourceMatch.t) : list (list JS.Value) :=
  match sources with
  | [] => []
  | sourceMatch :: rest =>
      match passRow web sourceMatch with
      | Normal values => values :: rowsOf web rest
      | Throw _ => []
      end
  end.

(** The text of the rows, one after the other. *)
Fixpoint logOf (rows : list (list JS.Value)) : string :=
  match rows with
  | [] => ""
  | values :: rest => rowText values ++ logOf rest
  end.

(** The matches the loop body sees for a fixture: those shown, when the
    index frame is at the page of the date already, the UK listing of that
    page otherwise. *)
Definition pageMatchesSeen (web : Web) (sourceMatch : SourceMatch.t) (b : Browser)
    : list PageMatch.t :=
  if String.eqb (indexFrame_href b) (dateURL sourceMatch) then indexFrame_matches b
  else indexUK web (dateURL sourceMatch).



End Statements.

(** The text the spec gives for the goals of the scenario. *)
Definition specGoalText : string := "10:home:1-0 / 55:away:1-1 / 80:home:2-1".

(** The goals column of the first written row. *)
Definition goalsColumn (b : Browser) : option JS.Value :=
  match written (actions b) with
  | values :: _ => nth_error values 7
  | [] => None
  end.


(* ================================================================= *)
(** ** Reading the fixture file: [loadSimpleCSV] *)

Module Text.

(** [s.split(c)] for a one-character separator: the pieces between the
    separators, at least one. *)
Fixpoint split (c : ascii) (s : string) : list string :=
  match s with
  | EmptyString => [EmptyString]
  | String a rest =>
      if Ascii.eqb a c then EmptyString :: split c rest
      else match split c rest with
           | piece :: pieces => String a piece :: pieces
           | [] => [JS.str a]
           end
  end.

End Text.

(** An object made by [loadSimpleCSV]: its properties, each a text or
    [undefined] ([None]).  They are kept here in the order they were made;
    the script reads properties by name only. *)
Module Obj.

Definition t : Type := list (string * option string).

(** [obj[key] = value].  The name [__proto__] is no property: assigning a
    text or [undefined] to it changes nothing. *)
Fixpoint assign (key : string) (value : option string) (obj : t) : t :=
  match obj with
  | [] => [(key, value)]
  | (k, v) :: rest =>
      if String.eqb k key then (k, value) :: rest
      else (k, v) :: assign key value rest
  end.

Definition set (key : string) (value : option string) (obj : t) : t :=
  if String.eqb key "__proto__" then obj else assign key value obj.

(** [obj[key]], for a name that objects do not inherit: [undefined] when
    the object has no such property. *)
Fixpoint get (key : string) (obj : t) : option string :=
  match obj with
  | [] => None
  | (k, v) :: rest => if String.eqb k key then v else get key rest
  end.

Definition keys (obj : t) : list string := map fst obj.

End Obj.


(** The loop of line 63 from [i] on, over the headers left. *)
Fixpoint fillCols (headers : list string) (fields : list string) (i : nat)
    (cols : Obj.t) : Obj.t :=
  match headers with
  | [] => cols
  | header :: rest =>
      fillCols rest fields (S i) (Obj.set header (nth_error fields i) cols)
  end.

(** Lines 60-65: the object of one row. *)
Definition rowObject (headers : list string) (row : string) : Obj.t :=
  let fields := Text.split "," row in
  fillCols headers fields 0 [].

(** [loadSimpleCSV], from the text that was fetched (lines 57-66). *)
Definition loadSimpleCSV (txt : string) : list Obj.t :=
  match Text.split JS.newline txt with
  | [] => []
  | first :: rows =>
      let headers := Text.split "," first in
      map (rowObject headers) rows
  end.

(** Line 174 on an object of [loadSimpleCSV]: [replace] is called on
    [sourceMatch.matchdate], which throws when that is [undefined]. *)
Definition dateURLOf (sourceMatch : Obj.t) : Completion string :=
  match Obj.get "matchdate" sourceMatch with
  | Some matchdate =>
      Normal ("https://uk.soccerway.com/matches/"
              ++ JS.replaceAll "-" "/" matchdate ++ "/")
  | None => Throw TypeError
  end.

(** The object as the record the loop body reads, when all six columns are
    texts. *)
Definition sourceMatchOf (cols : Obj.t) : option SourceMatch.t :=
  match Obj.get "div" cols, Obj.get "matchdate" cols, Obj.get "hometeam" cols,
        Obj.get "awayteam" cols, Obj.get "homegoals" cols, Obj.get "awaygoals" cols with
  | Some div, Some matchdate, Some hometeam, Some awayteam, Some homegoals, Some awaygoals =>
      Some (SourceMatch.mk div matchdate hometeam awayteam homegoals awaygoals)
  | _, _, _, _, _, _ => None
  end.

(** The text of a table: the header and the rows, cells joined by commas,
    lines joined by line breaks. *)
Definition tableText (headers : list string) (rows : list (list string)) : string :=
  JS.join (JS.str JS.newline) (map (JS.join ",") (headers :: rows)).

(** A cell that holds no comma and no line break. *)
Definition plainCell (cell : string) : bool :=
  negb (hasChar "," cell) && negb (hasChar JS.newline cell).

(* ================================================================= *)
(** ** Reading an index page: [getMatches] *)

Module IndexDOM.

(** A row of the index page with a [td.info-button] cell: the [title] of
    the link under [.team-a] and under [.team-b], the text of the link
    under [.score], and the [href] of the link in the cell; [None] when
    [querySelector] finds no such link. *)
Record Row : Type := mkRow {
  teamA_title : option string;
  teamB_title : option string;
  scoreLink : option string;
  infoLink_href : option string
}.

End IndexDOM.

Module RegExp.

(** A character [.] does not match. *)
Definition isLineTerminator (a : ascii) : bool :=
  match nat_of_ascii a with
  | 10%nat | 13%nat => true
  | _ => false
  end.

(** The text after [lit], when the text starts with it. *)
Fixpoint literal (lit s : string) : option string :=
  match lit with
  | EmptyString => Some s
  | String a lit' =>
      match s with
      | String c s' => if Ascii.eqb a c then literal lit' s' else None
      | EmptyString => None
      end
  end.

(** [\d{n}]: the text after [n] digits. *)
Fixpoint digits (n : nat) (s : string) : option string :=
  match n with
  | O => Some s
  | S k =>
      match s with
      | String c s' => if isDigit c then digits k s' else None
      | EmptyString => None
      end
  end.

(** [.+?] followed by the pattern [next]: one character or more, as few
    as let [next] match what follows.  The result is the text matched by
    [.+?] and by [next] together. *)
Fixpoint dotPlusLazy (next : string -> option string) (s : string) : option string :=
  match s with
  | EmptyString => None
  | String a rest =>
      if isLineTerminator a then None
      else match next rest with
           | Some matched => Some (String a matched)
           | None =>
               match dotPlusLazy next rest with
               | Some matched => Some (String a matched)
               | None => None
               end
           end
  end.

(** The slash that ends the pattern, outside the group. *)
Definition closingSlash (s : string) : option string :=
  match s with
  | String "/"%char _ => Some EmptyString
  | _ => None
  end.

(** The slash inside the group and the second [.+?]. *)
Definition slashThenPath (s : string) : option string :=
  match s with
  | String "/"%char rest =>
      match dotPlusLazy closingSlash rest with
      | Some matched => Some (String "/"%char matched)
      | None => None
      end
  | _ => None
  end.

(** The pattern of line 151 at the start of the text: group 1 when it
    matches there. *)
Definition matchHere (s : string) : option string :=
  match literal "/matches/" s with
  | None => None
  | Some s1 =>
      match digits 4 s1 with
      | None => None
      | Some s2 =>
          match literal "/" s2 with
          | None => None
          | Some s3 =>
              match digits 2 s3 with
              | None => None
              | Some s4 =>
                  match literal "/" s4 with
                  | None => None
                  | Some s5 =>
                      match digits 2 s5 with
                      | None => None
                      | Some s6 =>
                          match literal "/" s6 with
                          | None => None
                          | Some s7 => dotPlusLazy slashThenPath s7
                          end
                      end
                  end
              end
          end
      end
  end.

(** [URL.match(...)]: group 1 of the leftmost match, [None] for [null]. *)
Fixpoint divOf (URL : string) : option string :=
  match matchHere URL with
  | Some group => Some group
  | None =>
      match URL with
      | EmptyString => None
      | String _ rest => divOf rest
      end
  end.

(** A pattern that can only start at a slash. *)
Definition startsAtSlash (next : string -> option string) : Prop :=
  forall a rest, a <> "/"%char -> next (String a rest) = None.

End RegExp.

(** The callback of line 144 on one row. *)
Definition readRow (tr : IndexDOM.Row) : Completion PageMatch.t :=
  bindC (textContentOf (IndexDOM.teamA_title tr)) (fun home =>
    bindC (textContentOf (IndexDOM.teamB_title tr)) (fun away =>
      let score :=
        match IndexDOM.scoreLink tr with
        | Some text => text
        | None => "999 - 999"
        end in
      bindC (textContentOf (IndexDOM.infoLink_href tr)) (fun URL =>
        bindC (textContentOf (RegExp.divOf URL)) (fun div =>
          Normal (PageMatch.mk home score away URL div))))).

(** [getMatches] (lines 144-153) on the rows of the document. *)
Definition getMatchesOf (rows : list IndexDOM.Row) : Completion (list PageMatch.t) :=
  mapC readRow rows.

(** A date as it stands in a URL of the site. *)
Definition isSlashedDate (date : string) : bool :=
  match RegExp.digits 4 date with
  | Some s1 =>
      match RegExp.literal "/" s1 with
      | Some s2 =>
          match RegExp.digits 2 s2 with
          | Some s3 =>
              match RegExp.literal "/" s3 with
              | Some s4 =>
                  match RegExp.digits 2 s4 with
                  | Some EmptyString => true
                  | _ => false
                  end
              | None => false
              end
          | None => false
          end
      | None => false
      end
  | None => false
  end.

(** A character of a part of a path: no slash, no line terminator. *)
Definition segmentChar (a : ascii) : bool :=
  negb (Ascii.eqb a "/") && negb (RegExp.isLineTerminator a).

(** A part of a path: not empty, of such characters. *)
Definition isSegment (s : string) : bool :=
  negb (String.eqb s "") && allChars segmentChar s.

(** The header the loop body expects, and the cells of a fixture under
    it. *)
Definition fixtureHeaders : list string :=
  ["div"; "matchdate"; "hometeam"; "awayteam"; "homegoals"; "awaygoals"].

Definition cellsOf (sourceMatch : SourceMatch.t) : list string :=
  [ SourceMatch.div sourceMatch; SourceMatch.matchdate sourceMatch;
    SourceMatch.hometeam sourceMatch; SourceMatch.awayteam sourceMatch;
    SourceMatch.homegoals sourceMatch; SourceMatch.awaygoals sourceMatch ].

(* ================================================================= *)
(** ** Notions used in the statements on the match page *)

(** The element has a previous sibling, whose text is not [label]. *)
Definition siblingOther (label : string) (el : DOM.Element) : Prop :=
  exists text, DOM.previousElementSibling el = Some text /\ text <> label.

(** The goal that lines 221-226 and 231-236 make of a score element and
    the two minute elements. *)
Definition readsGoal (score homeMin awayMin : option string) (goal : Goal.t) : Prop :=
  score = Some (Goal.score goal) /\
  match homeMin with
  | Some text => Goal.team goal = "home" /\ Goal.minute goal = JS.parseInt text
  | None =>
      Goal.team goal = "away" /\
      exists text, awayMin = Some text /\ Goal.minute goal = JS.parseInt text
  end.

(** The elements from which no goal can be made. *)
Definition unreadableGoal (score homeMin awayMin : option string) : Prop :=
  score = None \/ (homeMin = None /\ awayMin = None).

(* ================================================================= *)
(** ** The petitions script, [scraping-example-v2.js] *)

Module Petitions.

(** [typeof value].  For a value of another kind it is a text that none
    of the tests of [write] looks for. *)
Definition typeof (value : JS.Value) : string :=
  match value with
  | JS.Undefined => "undefined"
  | JS.Num _ => "number"
  | JS.Boolean _ => "boolean"
  | JS.Str _ => "string"
  | JS.Null | JS.DateObj _ | JS.Object _ => "object"
  end.

Definition quoted (text : string) : string :=
  JS.str JS.dquote
  ++ JS.replaceAll JS.dquote (JS.str JS.dquote ++ JS.str JS.dquote) text
  ++ JS.str JS.dquote.

(** The text of one column in [write] (lines 34-41). *)
Definition column (value : JS.Value) : string :=
  let t := typeof value in
  if String.eqb t "null" || String.eqb t "undefined" then ""
  else
    match value with
    | JS.Num x => JS.Number_toString x                   (* t == 'number' *)
    | JS.Boolean b => if b then "1" else "0"             (* t == 'boolean' *)
    | JS.DateObj d =>                                    (* value instanceof Date *)
        JS.replaceFirst "Z" "" (JS.replaceFirst "T" " " (JS.toISOString d))
    | JS.Null => quoted "null"                           (* String(null) *)
    | JS.Undefined => quoted "undefined"
    | JS.Str text | JS.Object text => quoted text
    end.

(** The textarea after [write(...values)] (lines 30-46); this script keeps
    nothing in localStorage. *)
Definition write (values : list JS.Value) (textarea : string) : string :=
  textarea ++ JS.join "," (map column values) ++ JS.str JS.newline.

(** A [.petition-item]: the [data-count] attribute of its [.count]
    element ([None] without such an element, [Some None] without the
    attribute) and the text of its [h3 a] link. *)
Record Item : Type := mkItem {
  countElement : option (option string);
  titleLink : option string
}.

(** A page of the list: its items and the link of [a.next]. *)
Record Page : Type := mkPage {
  items : list Item;
  nextLink : option string
}.

Definition Site : Type := string -> Page.

Inductive Outcome : Type := Returned | TypeError | ReferenceError.

(** The [forEach] of lines 63-68 over the items left: the textarea after
    it, and whether the callback threw. *)
Fixpoint writeItems (timestamp : JS.Date) (items : list Item) (textarea : string)
    : string * Outcome :=
  match items with
  | [] => (textarea, Returned)
  | item :: rest =>
      match countElement item with
      | None => (textarea, TypeError)
      | Some attribute =>
          let count :=
            JS.parseInt (match attribute with Some text => text | None => "null" end) in
          match titleLink item with
          | None => (textarea, TypeError)
          | Some name =>
              writeItems timestamp rest
                (write [JS.Num count; JS.Str name; JS.DateObj timestamp] textarea)
          end
      end
  end.

(** The script and its frame: the text of the textarea; whether [process]
    is registered for [load]; the global variable [clickTimeout], [None]
    until it is first assigned; the timers set and neither fired nor
    cleared, each with the link it will click; the number of the next
    timer; the page the frame shows; and the page it is loading, if any. *)
Record State : Type := mkState {
  textarea : string;
  listening : bool;
  clickTimeout : option nat;
  timers : list (nat * string);
  nextTimer : nat;
  location : string;
  loading : option string
}.

(** After [start()] on the page [here] (lines 15-28). *)
Definition start (here : string) : State :=
  mkState "" true None [] 0 "about:blank" (Some here).

(** [process()] (lines 55-73), called at the time [timestamp]. *)
Definition process (site : Site) (timestamp : JS.Date) (s : State) : State * Outcome :=
  let doc := site (location s) in
  match writeItems timestamp (items doc) (textarea s) with
  | (text, Returned) =>
      match nextLink doc with
      | Some link =>
          (mkState text (listening s) (Some (nextTimer s))
             (timers s ++ [(nextTimer s, link)]) (S (nextTimer s))
             (location s) (loading s),
           Returned)
      | None =>
          (mkState text (listening s) (clickTimeout s) (timers s) (nextTimer s)
             (location s) (loading s),
           Returned)
      end
  | (text, thrown) =>
      (mkState text (listening s) (clickTimeout s) (timers s) (nextTimer s)
         (location s) (loading s),
       thrown)
  end.

(** [abort()] (lines 48-53): reading [clickTimeout] before it was ever
    assigned throws, and the listener stays. *)
Definition abort (s : State) : State * Outcome :=
  match clickTimeout s with
  | None => (s, ReferenceError)
  | Some id =>
      (mkState (textarea s) false (clickTimeout s)
         (filter (fun timer => negb (Nat.eqb (fst timer) id)) (timers s))
         (nextTimer s) (location s) (loading s),
       Returned)
  end.

(** What happens to the script: the page being loaded is there, at a given
    time; the oldest timer fires and clicks its link; the user calls
    [abort()]. *)
Inductive Event : Type :=
| Loaded (timestamp : JS.Date)
| Fire
| Abort.

Definition step (site : Site) (s : State) (event : Event) : State :=
  match event with
  | Loaded timestamp =>
      match loading s with
      | Some url =>
          let shown :=
            mkState (textarea s) (listening s) (clickTimeout s) (timers s)
              (nextTimer s) url None in
          if listening s then fst (process site timestamp shown) else shown
      | None => s
      end
  | Fire =>
      match timers s with
      | (_, link) :: rest =>
          mkState (textarea s) (listening s) (clickTimeout s) rest (nextTimer s)
            (location s) (Some link)
      | [] => s
      end
  | Abort => fst (abort s)
  end.

Definition after (site : Site) (events : list Event) (s : State) : State :=
  fold_left (step site) events s.



(** At most one timer waits, the one [clickTimeout] names, and no page is
    loading while it waits. *)
Definition oneTimer (s : State) : Prop :=
  timers s = [] \/
  exists link id,
    timers s = [(id, link)] /\ clickTimeout s = Some id /\ loading s = None.

(** The crawl is over: nothing listens or waits. *)
Definition stopped (s : State) : Prop := listening s = false /\ timers s = [].


End Petitions.
(* ================================================================= *)
(** * Proofs *)

Unset Implicit Arguments.

(** ** Strings *)

Lemma append_assoc (s1 s2 s3 : string) : (s1 ++ s2) ++ s3 = s1 ++ s2 ++ s3.
Proof. induction s1 as [|a s1 IH]; simpl; [reflexivity | now rewrite IH]. Qed.

Lemma append_empty_r (s : string) : s ++ "" = s.
Proof. induction s as [|a s IH]; simpl; [reflexivity | now rewrite IH]. Qed.


Lemma hasChar_append (c : ascii) (s1 s2 : string) :
  hasChar c (s1 ++ s2) = hasChar c s1 || hasChar c s2.
Proof.
  induction s1 as [|a s1 IH]; simpl; [reflexivity|].
  now rewrite IH, orb_assoc.
Qed.

Lemma allChars_append (p : ascii -> bool) (s1 s2 : string) :
  allChars p (s1 ++ s2) = allChars p s1 && allChars p s2.
Proof.
  induction s1 as [|a s1 IH]; simpl; [reflexivity|].
  now rewrite IH, andb_assoc.
Qed.

















Lemma list_ascii_append (s1 s2 : string) :
  list_ascii_of_string (s1 ++ s2) = (list_ascii_of_string s1 ++ list_ascii_of_string s2)%list.
Proof. induction s1 as [|a s1 IH]; simpl; [reflexivity | now rewrite IH]. Qed.

Lemma replaceAll_doubled (text : string) :
  list_ascii_of_string
    (JS.replaceAll JS.dquote (JS.str JS.dquote ++ JS.str JS.dquote) text)
  = doubled (list_ascii_of_string text).
Proof.
  induction text as [|a text IH]; [reflexivity|].
  cbn [JS.replaceAll list_ascii_of_string doubled flat_map].
  destruct (Ascii.eqb a JS.dquote).
  - rewrite list_ascii_append, IH. reflexivity.
  - cbn [list_ascii_of_string]. rewrite IH. reflexivity.
Qed.

Lemma column_text (text : string) :
  list_ascii_of_string (column (JS.Str text))
  = (JS.dquote :: doubled (list_ascii_of_string text) ++ [JS.dquote])%list.
Proof.
  unfold column. rewrite !list_ascii_append, replaceAll_doubled. reflexivity.
Qed.


(* ================================================================= *)
(** ** The row writer *)

Lemma writeCSV_appends (values : list JS.Value) (b : Browser) :
  writeCSV values b =
    (mkBrowser (textarea_value b ++ rowText values)
       (Some (textarea_value b ++ rowText values))
       (indexFrame_href b) (indexFrame_matches b) (matchFrame_href b)
       (matchFrame_document b) (actions b ++ [WriteCSV values]),
     Normal tt).
Proof. reflexivity. Qed.



(* ================================================================= *)
(** ** The filter by score and division *)

Lemma startsWith_iff (s p : string) :
  JS.startsWith s p = true <-> exists rest, s = p ++ rest.
Proof.
  unfold JS.startsWith. revert s.
  induction p as [|a p IH]; intros s; simpl.
  - split; [intros _; now exists s | now destruct s].
  - destruct s as [|c s].
    + split; [discriminate | intros [rest H]; discriminate].
    + simpl. destruct (ascii_dec a c) as [->|Hne].
      * rewrite IH. split; intros [rest H]; exists rest.
        -- now rewrite H.
        -- now injection H.
      * split; [discriminate|].
        intros [rest H]. injection H as H1 _. congruence.
Qed.

Lemma sameScoreAndLeague_iff (sourceMatch : SourceMatch.t) (pageMatch : PageMatch.t) :
  sameScoreAndLeague sourceMatch pageMatch = true <->
  PageMatch.score pageMatch
    = SourceMatch.homegoals sourceMatch ++ " - " ++ SourceMatch.awaygoals sourceMatch /\
  exists rest,
    PageMatch.div pageMatch
    = searchString (property leagueMap (SourceMatch.div sourceMatch)) ++ rest.
Proof.
  unfold sameScoreAndLeague.
  now rewrite andb_true_iff, String.eqb_eq, startsWith_iff.
Qed.


(* ================================================================= *)
(** ** The pick by trigram similarity *)

Lemma Qgtb_true (a b : Q) : Qgtb a b = true <-> (b < a)%Q.
Proof.
  unfold Qgtb. rewrite negb_true_iff, <- not_true_iff_false, Qle_bool_iff.
  split; [apply Qnot_le_lt | apply Qlt_not_le].
Qed.

Lemma Qgtb_false (a b : Q) : Qgtb a b = false <-> (a <= b)%Q.
Proof.
  unfold Qgtb. rewrite negb_false_iff. apply Qle_bool_iff.
Qed.

Section Pick.
Context {TL : TrigramsLib}.
Variable sourceMatch : SourceMatch.t.

(** The callback of the [forEach], on the pair of [bestMatch] and
    [bestMatchQuality]. *)
Let consider (best : option PageMatch.t * Q) (match_ : PageMatch.t) : option PageMatch.t * Q :=
  let (bestMatch, bestMatchQuality) := best in
  let matchQuality := qualityOf sourceMatch match_ in
  if Qgtb matchQuality bestMatchQuality then (Some match_, matchQuality)
  else (bestMatch, bestMatchQuality).

(** The [forEach] from any pair on: either no candidate beats the pair and
    it stays, or the result is the first of the candidates with the highest
    similarity, which beats the pair. *)
Lemma forEach_from (matching : list PageMatch.t) :
  forall (bestMatch : option PageMatch.t) (bestMatchQuality : Q),
    ((forall c, In c matching -> (qualityOf sourceMatch c <= bestMatchQuality)%Q) /\
     fold_left consider matching (bestMatch, bestMatchQuality)
     = (bestMatch, bestMatchQuality))
    \/
    (exists before m later,
       matching = (before ++ m :: later)%list /\
       fold_left consider matching (bestMatch, bestMatchQuality)
       = (Some m, qualityOf sourceMatch m) /\
       (bestMatchQuality < qualityOf sourceMatch m)%Q /\
       (forall c, In c before -> (qualityOf sourceMatch c < qualityOf sourceMatch m)%Q) /\
       (forall c, In c later -> (qualityOf sourceMatch c <= qualityOf sourceMatch m)%Q)).
Proof.
  induction matching as [|x rest IH]; intros bestMatch bestMatchQuality.
  - left. split; [intros c []| reflexivity].
  - cbn [fold_left].
    replace (consider (bestMatch, bestMatchQuality) x)
      with (if Qgtb (qualityOf sourceMatch x) bestMatchQuality
            then (Some x, qualityOf sourceMatch x)
            else (bestMatch, bestMatchQuality)) by reflexivity.
    destruct (Qgtb (qualityOf sourceMatch x) bestMatchQuality) eqn:Hx.
    + apply Qgtb_true in Hx. right.
      destruct (IH (Some x) (qualityOf sourceMatch x))
        as [[Hle Hfold] | (before & m & later & Hsplit & Hfold & Hlt & Hbefore & Hlater)].
      * exists [], x, rest.
        split; [reflexivity|]. split; [exact Hfold|]. split; [exact Hx|].
        split; [intros c []| exact Hle].
      * exists (x :: before), m, later. subst rest.
        split; [reflexivity|]. split; [exact Hfold|].
        split; [eapply Qlt_trans; eassumption|].
        split; [|exact Hlater].
        intros c [<-|Hc]; auto.
    + apply Qgtb_false in Hx.
      destruct (IH bestMatch bestMatchQuality)
        as [[Hle Hfold] | (before & m & later & Hsplit & Hfold & Hlt & Hbefore & Hlater)].
      * left. split; [|assumption]. intros c [<-|Hc]; auto.
      * right. exists (x :: before), m, later. subst rest.
        split; [reflexivity|]. split; [exact Hfold|]. split; [exact Hlt|].
        split; [|exact Hlater].
        intros c [<-|Hc]; auto. eapply Qle_lt_trans; eassumption.
Qed.

Lemma pickBest_cases (matching : list PageMatch.t) :
  ((forall c, In c matching -> (qualityOf sourceMatch c <= 0)%Q) /\
   pickBest sourceMatch matching = (None, 0%Q))
  \/
  (exists before m later,
     matching = (before ++ m :: later)%list /\
     pickBest sourceMatch matching = (Some m, qualityOf sourceMatch m) /\
     (0 < qualityOf sourceMatch m)%Q /\
     (forall c, In c before -> (qualityOf sourceMatch c < qualityOf sourceMatch m)%Q) /\
     (forall c, In c later -> (qualityOf sourceMatch c <= qualityOf sourceMatch m)%Q)).
Proof. exact (forEach_from matching None 0%Q). Qed.

Lemma pickBest_none (matching : list PageMatch.t) :
  (forall c, In c matching -> (qualityOf sourceMatch c == 0)%Q) ->
  pickBest sourceMatch matching = (None, 0%Q).
Proof.
  intros Hzero.
  destruct (pickBest_cases matching)
    as [[_ H] | (before & m & later & Hsplit & _ & Hpos & _)]; [assumption|].
  exfalso. rewrite (Hzero m) in Hpos; [now apply Qlt_irrefl in Hpos|].
  subst matching. apply in_or_app. right. now left.
Qed.

End Pick.


Section PickScenario.
Local Existing Instance SpecTrigrams.lib.



End PickScenario.

(* ================================================================= *)
(** ** One pass of the loop *)

Lemma dateURL_not_blank (sourceMatch : SourceMatch.t) :
  dateURL sourceMatch <> "about:blank".
Proof. unfold dateURL. simpl. discriminate. Qed.

Lemma loadIndexPage_run (web : Web) (url : string) (b : Browser) :
  loadIndexPage web url b =
    (mkBrowser (textarea_value b) (localStorage_csv b) url
       (if String.eqb (indexFrame_href b) url then indexFrame_matches b
        else indexUK web url)
       (matchFrame_href b) (matchFrame_document b)
       (actions b ++ indexActions b url),
     Normal tt).
Proof.
  unfold loadIndexPage, indexActions, bind, gets. simpl.
  destruct (String.eqb_spec (indexFrame_href b) url) as [Heq|Hne]; simpl.
  - rewrite app_nil_r. destruct b; simpl in *. now subst.
  - unfold bind, openURLInFrame, sleepBetween, clickUK, emit. simpl.
    now rewrite <- !app_assoc.
Qed.

Section Pass.
Context {TL : TrigramsLib}.
Variable web : Web.

Lemma retrieve_run (bestMatch : option PageMatch.t) (b : Browser) :
  retrieve web bestMatch b =
    (mkBrowser (textarea_value b) (localStorage_csv b) (indexFrame_href b)
       (indexFrame_matches b)
       (match bestMatch with Some m => PageMatch.URL m | None => matchFrame_href b end)
       (match bestMatch with
        | Some m => matchDocument web (PageMatch.URL m)
        | None => matchFrame_document b
        end)
       (actions b ++ detailActions bestMatch),
     readDetail web bestMatch).
Proof.
  destruct bestMatch as [m|]; simpl.
  - unfold bind, sleepBetween, openURLInFrame, emit, gets, lift, ret. simpl.
    rewrite <- app_assoc. simpl.
    destruct (getKickOff (matchDocument web (PageMatch.URL m))) as [kickOff|e];
      simpl; [|reflexivity].
    destruct (getGoals (matchDocument web (PageMatch.URL m))); reflexivity.
  - unfold ret. rewrite app_nil_r. now destruct b.
Qed.

(** The whole effect of one pass. *)
Lemma processMatch_run (sourceMatch : SourceMatch.t) (b : Browser) :
  let url := dateURL sourceMatch in
  let seen := pageMatchesSeen web sourceMatch b in
  let best := pickBest sourceMatch (matchingPageMatches sourceMatch seen) in
  let href := match fst best with Some m => PageMatch.URL m | None => matchFrame_href b end in
  let doc := match fst best with
             | Some m => matchDocument web (PageMatch.URL m)
             | None => matchFrame_document b
             end in
  processMatch web sourceMatch b =
    match readDetail web (fst best) with
    | Normal detail =>
        let values := rowValues sourceMatch (fst detail) (snd detail) (fst best) (snd best) in
        (mkBrowser (textarea_value b ++ rowText values)
           (Some (textarea_value b ++ rowText values)) url seen href doc
           (actions b ++ indexActions b url ++ detailActions (fst best)
              ++ [WriteCSV values; Sleep 2 5]),
         Normal tt)
    | Throw e =>
        (mkBrowser (textarea_value b) (localStorage_csv b) url seen href doc
           (actions b ++ indexActions b url ++ detailActions (fst best)),
         Throw e)
    end.
Proof.
  intros url seen best href doc.
  unfold processMatch. unfold bind at 1. rewrite loadIndexPage_run.
  unfold bind at 1. unfold getMatches, gets. cbn [indexFrame_matches].
  fold url. change (if String.eqb (indexFrame_href b) url then indexFrame_matches b
                    else indexUK web url) with seen.
  fold best. destruct best as [bestMatch bestMatchQuality] eqn:Hbest.
  unfold bind at 1. rewrite retrieve_run. cbn [fst snd] in *. subst href doc.
  cbn [textarea_value localStorage_csv indexFrame_href indexFrame_matches
       matchFrame_href matchFrame_document actions].
  destruct (readDetail web bestMatch) as [detail|e].
  - unfold bind, writeCSV, sleepBetween, emit. simpl.
    now rewrite <- !app_assoc.
  - now rewrite <- app_assoc.
Qed.

End Pass.

(* ================================================================= *)
(** ** Counting actions *)

Lemma written_app (acts1 acts2 : list Action) :
  written (acts1 ++ acts2) = (written acts1 ++ written acts2)%list.
Proof.
  induction acts1 as [|a acts1 IH]; [reflexivity|].
  destruct a; simpl; now rewrite IH.
Qed.

Lemma navigations_app (frame : Frame) (acts1 acts2 : list Action) :
  navigations frame (acts1 ++ acts2)
  = navigations frame acts1 + navigations frame acts2.
Proof. unfold navigations. now rewrite filter_app, length_app. Qed.

Lemma written_indexActions (b : Browser) (url : string) :
  written (indexActions b url) = [].
Proof. unfold indexActions. now destruct (String.eqb _ _). Qed.

Lemma written_detailActions (bestMatch : option PageMatch.t) :
  written (detailActions bestMatch) = [].
Proof. now destruct bestMatch. Qed.

Lemma navigations_match_indexActions (b : Browser) (url : string) :
  navigations matchFrame (indexActions b url) = 0.
Proof. unfold indexActions. now destruct (String.eqb _ _). Qed.

(* ================================================================= *)
(** ** No match *)

(** C10: a candidate is picked only when its similarity is above 0.  When
    every candidate that passes the filter has similarity 0, none is
    picked, however many there are: [bestMatch] stays [null] and the
    quality 0.  The pass then ends normally without loading a match page,
    and the row it writes has [null] for the kick-off time and both matched
    names, the empty text for the goals and 0 for the quality; their
    columns are empty, a pair of double quotes, 0, empty and empty. *)
Theorem zero_similarity_no_match {TL : TrigramsLib}
    (web : Web) (sourceMatch : SourceMatch.t) (b : Browser) :
  (forall matching m,
     fst (pickBest sourceMatch matching) = Some m ->
     In m matching /\ (0 < qualityOf sourceMatch m)%Q) /\
  ((forall m,
      In m (matchingPageMatches sourceMatch (pageMatchesSeen web sourceMatch b)) ->
      (qualityOf sourceMatch m == 0)%Q) ->
   let values :=
     [ JS.Str (SourceMatch.div sourceMatch);
       JS.Str (SourceMatch.matchdate sourceMatch);
       JS.Str (SourceMatch.hometeam sourceMatch);
       JS.Str (SourceMatch.awayteam sourceMatch);
       JS.Num (JS.parseInt (SourceMatch.homegoals sourceMatch));
       JS.Num (JS.parseInt (SourceMatch.awaygoals sourceMatch));
       JS.Null; JS.Str ""; JS.Num (JS.Thousandths 0); JS.Null; JS.Null ] in
   pickBest sourceMatch
     (matchingPageMatches sourceMatch (pageMatchesSeen web sourceMatch b))
   = (None, 0%Q) /\
   map column (skipn 6 values)
   = [""; JS.str JS.dquote ++ JS.str JS.dquote; "0"; ""; ""] /\
   exists b',
     processMatch web sourceMatch b = (b', Normal tt) /\
     textarea_value b' = textarea_value b ++ rowText values /\
     written (actions b') = (written (actions b) ++ [values])%list /\
     navigations matchFrame (actions b') = navigations matchFrame (actions b)).
Proof.
  split.
  { intros matching m Hpick.
    destruct (pickBest_cases sourceMatch matching)
      as [[_ Hnone] | (before & m' & later & Hsplit & Hsome & Hpos & _)].
    - rewrite Hnone in Hpick. discriminate.
    - rewrite Hsome in Hpick. injection Hpick as <-.
      split; [|exact Hpos]. subst matching. apply in_or_app. right. now left. }
  intros Hzero values.
  pose proof (pickBest_none sourceMatch _ Hzero) as Hpick.
  split; [exact Hpick|]. split; [reflexivity|].
  pose proof (processMatch_run web sourceMatch b) as Hrun.
  cbv zeta in Hrun. rewrite Hpick in Hrun. cbn [fst snd readDetail] in Hrun.
  eexists. split; [exact Hrun|].
  cbn [textarea_value actions]. split; [reflexivity|]. split.
  - rewrite !written_app, written_indexActions. reflexivity.
  - rewrite !navigations_app, navigations_match_indexActions.
    unfold navigations. simpl. lia.
Qed.

Section NoMatchScenario.
Local Existing Instance SpecTrigrams.lib.

(** The fixture of the scenario against a page that lists one candidate of
    its score and division under other names. *)
Lemma zero_similarity_no_match_witness :
  textarea_value
    (fst (processMatch (Scenario.web [Scenario.stranger] Scenario.detail)
            Scenario.fixture (pageLoad None)))
  = rowText
      [ JS.Str "E0"; JS.Str "2018-01-01"; JS.Str "Town FC"; JS.Str "City FC";
        JS.Num (JS.ofInt 2); JS.Num (JS.ofInt 1);
        JS.Null; JS.Str ""; JS.Num (JS.Thousandths 0); JS.Null; JS.Null ].
Proof.
  destruct (zero_similarity_no_match
              (Scenario.web [Scenario.stranger] Scenario.detail)
              Scenario.fixture (pageLoad None))
    as [_ Hzero].
  destruct Hzero as (_ & _ & b' & Hrun & Htext & _).
  - intros m [<-|[]]. reflexivity.
  - rewrite Hrun. exact Htext.
Defined.

End NoMatchScenario.

(* ================================================================= *)
(** ** Reuse of the index page *)

Lemma navigations_index_detailActions (bestMatch : option PageMatch.t) :
  navigations indexFrame (detailActions bestMatch) = 0.
Proof. now destruct bestMatch. Qed.

Lemma processMatch_href {TL : TrigramsLib} (web : Web)
    (sourceMatch : SourceMatch.t) (b : Browser) :
  indexFrame_href (fst (processMatch web sourceMatch b)) = dateURL sourceMatch.
Proof.
  pose proof (processMatch_run web sourceMatch b) as Hrun. cbv zeta in Hrun.
  rewrite Hrun. now destruct (readDetail web _).
Qed.

Lemma processMatch_same_date {TL : TrigramsLib} (web : Web)
    (sourceMatch : SourceMatch.t) (b : Browser) :
  indexFrame_href b = dateURL sourceMatch ->
  navigations indexFrame (actions (fst (processMatch web sourceMatch b)))
  = navigations indexFrame (actions b).
Proof.
  intros Hb.
  pose proof (processMatch_run web sourceMatch b) as Hrun. cbv zeta in Hrun.
  rewrite Hrun. clear Hrun.
  assert (Hidx : indexActions b (dateURL sourceMatch) = []).
  { unfold indexActions. now rewrite Hb, String.eqb_refl. }
  destruct (readDetail web _); cbn [fst actions];
    rewrite Hidx, !navigations_app, navigations_index_detailActions;
    unfold navigations; simpl; lia.
Qed.

(** C4: when the index frame is at the URL already, lines 175-179 do
    nothing: no navigation, no delay, no click.  After them the frame is at
    the URL, so running them again with the same URL does nothing; from a
    frame that was elsewhere, the two runs together make one navigation.
    In the loop: the pass for a fixture leaves the index frame at the page
    of its date, and the pass for a next fixture of the same date does not
    navigate the index frame. *)
Theorem loadIndexPage_once {TL : TrigramsLib} (web : Web) (url : string) :
  (forall b, indexFrame_href b = url -> loadIndexPage web url b = (b, Normal tt)) /\
  (forall b,
     let b1 := fst (loadIndexPage web url b) in
     indexFrame_href b1 = url /\ loadIndexPage web url b1 = (b1, Normal tt)) /\
  (forall b,
     indexFrame_href b <> url ->
     let b2 := fst (loadIndexPage web url (fst (loadIndexPage web url b))) in
     actions b2 = (actions b ++ [Navigate indexFrame url; Sleep 1 2; ClickUK])%list /\
     navigations indexFrame (actions b2) = S (navigations indexFrame (actions b))) /\
  (forall sourceMatch1 sourceMatch2 b,
     dateURL sourceMatch1 = url -> dateURL sourceMatch2 = url ->
     let b1 := fst (processMatch web sourceMatch1 b) in
     navigations indexFrame (actions (fst (processMatch web sourceMatch2 b1)))
     = navigations indexFrame (actions b1)).
Proof.
  assert (Hsame : forall b, indexFrame_href b = url ->
                            loadIndexPage web url b = (b, Normal tt)).
  { intros b Hb. rewrite loadIndexPage_run. unfold indexActions.
    rewrite <- Hb, String.eqb_refl, app_nil_r. now destruct b. }
  split; [exact Hsame|]. split; [|split].
  - intros b b1. subst b1. rewrite loadIndexPage_run. cbn [fst indexFrame_href].
    split; [reflexivity|]. now apply Hsame.
  - intros b Hb b2. subst b2.
    rewrite (loadIndexPage_run web url b). cbn [fst].
    rewrite Hsame by reflexivity. cbn [fst actions].
    unfold indexActions. apply String.eqb_neq in Hb. rewrite Hb.
    split; [reflexivity|].
    rewrite navigations_app. simpl. unfold navigations. simpl. lia.
  - intros sourceMatch1 sourceMatch2 b H1 H2 b1. subst b1.
    apply processMatch_same_date.
    now rewrite processMatch_href, H1, H2.
Qed.

Section ReuseScenario.
Local Existing Instance SpecTrigrams.lib.

(** From a fresh page, loading the index page of the fixture twice makes
    one navigation, and so do two passes for the fixture. *)
Lemma loadIndexPage_once_witness :
  let site := Scenario.web [Scenario.candidate] Scenario.detail in
  let url := dateURL Scenario.fixture in
  navigations indexFrame
    (actions (fst (loadIndexPage site url (fst (loadIndexPage site url (pageLoad None))))))
  = 1 /\
  navigations indexFrame
    (actions (fst (processMatch site Scenario.fixture
                     (fst (processMatch site Scenario.fixture (pageLoad None))))))
  = 1.
Proof.
  intros site url.
  destruct (loadIndexPage_once site url) as (_ & _ & Htwice & Hpasses).
  split.
  - destruct (Htwice (pageLoad None)) as [_ Hcount]; [discriminate|].
    exact Hcount.
  - rewrite (Hpasses Scenario.fixture Scenario.fixture (pageLoad None) eq_refl eq_refl).
    vm_compute. reflexivity.
Defined.

End ReuseScenario.

(* ================================================================= *)
(** ** The two layouts of the goals *)

Lemma mapC_nil {A B : Type} (f : A -> Completion B) (arr : list A) :
  mapC f arr = Normal [] <-> arr = [].
Proof.
  split; [|now intros ->].
  destruct arr as [|x rest]; [reflexivity|]. simpl.
  destruct (f x) as [y|e]; simpl; [|discriminate].
  destruct (mapC f rest); simpl; discriminate.
Qed.

(** C9: the Scotland-style reading yields no goal exactly when the page has
    no row of that layout; the goals are then those of the England-style
    reading, and nothing is thrown for the missing layout: with no item of
    either layout the goals are the empty list.  When the Scotland-style
    reading yields a goal, the result is its goals whatever the
    England-style items are, also items whose reading would throw: they are
    not read. *)
Theorem getGoals_fallback (doc : DOM.MatchDocument) :
  (scotlandGoals doc = Normal [] <-> DOM.eventsRows doc = []) /\
  (scotlandGoals doc = Normal [] -> getGoals doc = englandGoals doc) /\
  (scotlandGoals doc = Normal [] -> DOM.scorerItems doc = [] ->
   getGoals doc = Normal []) /\
  (forall goal goals,
     scotlandGoals doc = Normal (goal :: goals) ->
     forall items,
       getGoals (DOM.mkMatchDocument (DOM.detailsSpans doc) (DOM.detailsDds doc)
                   (DOM.eventsRows doc) items)
       = Normal (goal :: goals)).
Proof.
  split; [apply mapC_nil|]. split; [|split].
  - intros H. unfold getGoals. now rewrite H.
  - intros H Hitems. unfold getGoals. rewrite H. simpl.
    unfold englandGoals. now rewrite Hitems.
  - intros goal goals H items. unfold getGoals.
    change (scotlandGoals (DOM.mkMatchDocument (DOM.detailsSpans doc)
                             (DOM.detailsDds doc) (DOM.eventsRows doc) items))
      with (scotlandGoals doc).
    now rewrite H.
Qed.

(** The page of the scenario has no Scotland-style row and gives its
    England-style goals; a page with a Scotland-style goal gives it, though
    reading its England-style item would throw. *)
Lemma getGoals_fallback_witness :
  getGoals Scenario.detail = Normal Scenario.goals /\
  englandGoals Scenario.detailScotland = Throw TypeError /\
  getGoals Scenario.detailScotland = Normal [Goal.mk (JS.ofInt 10) "home" "1-0"].
Proof.
  split; [|split].
  - destruct (getGoals_fallback Scenario.detail) as (_ & Hfallback & _).
    rewrite Hfallback; reflexivity.
  - reflexivity.
  - destruct (getGoals_fallback Scenario.detailScotland) as (_ & _ & _ & Hprimary).
    exact (Hprimary _ _ eq_refl (DOM.scorerItems Scenario.detailScotland)).
Defined.

(* ================================================================= *)
(** ** The wait for the refreshed listing *)

Module ObserverFacts.
Import Observer.

Lemma removedOverlay_iff (mutations : list MutationRecord) :
  existsb (fun mutation => Nat.ltb 0 (List.length (removedNodes mutation))) mutations = true
  <-> hasRemoval mutations.
Proof.
  rewrite existsb_exists. unfold hasRemoval.
  split; intros (mutation & Hin & H); exists mutation; split; auto.
  - apply Nat.ltb_lt in H. intros Hnil. rewrite Hnil in H. simpl in H. lia.
  - apply Nat.ltb_lt. destruct (removedNodes mutation); [congruence | simpl; lia].
Qed.

Lemma deliver_quiet (w : Wait) (mutations : list MutationRecord) :
  connected w = true -> ~ hasRemoval mutations ->
  deliver w mutations = mkWait true (S (delivered w)) (resolvedAt w).
Proof.
  intros Hc Hno. unfold deliver, callback. rewrite Hc.
  destruct (existsb _ mutations) eqn:He.
  - apply removedOverlay_iff in He. contradiction.
  - reflexivity.
Qed.

Lemma deliver_removal (w : Wait) (mutations : list MutationRecord) :
  connected w = true -> hasRemoval mutations ->
  deliver w mutations = mkWait false (S (delivered w)) (resolvedAt w ++ [delivered w]).
Proof.
  intros Hc Hrem. unfold deliver, callback. rewrite Hc.
  apply removedOverlay_iff in Hrem. now rewrite Hrem.
Qed.

Lemma deliver_disconnected (batches : list (list MutationRecord)) (w : Wait) :
  connected w = false -> fold_left deliver batches w = w.
Proof.
  intros Hc. induction batches as [|mutations batches IH]; [reflexivity|].
  simpl. unfold deliver at 2. now rewrite Hc.
Qed.

Lemma quiet_from (batches : list (list MutationRecord)) :
  (forall mutations, In mutations batches -> ~ hasRemoval mutations) ->
  forall count resolved,
    fold_left deliver batches (mkWait true count resolved)
    = mkWait true (count + List.length batches) resolved.
Proof.
  induction batches as [|mutations batches IH]; intros Hq count resolved; simpl.
  - now rewrite Nat.add_0_r.
  - rewrite deliver_quiet; [|reflexivity|apply Hq; now left]. simpl.
    rewrite IH by (intros; apply Hq; now right).
    f_equal. lia.
Qed.

End ObserverFacts.

(** C6: as long as no delivered batch holds a record with a removed node
    (insertions only, or nothing of the kind), [resolve] is not called and
    the observer stays connected.  From the first batch that holds one,
    [resolve] has been called once, at that batch, and the observer is
    disconnected: no later batch reaches the callback, and the promise is
    resolved that one time whatever follows. *)
Theorem clickUK_resolves_once (batches : list (list Observer.MutationRecord)) :
  ((forall mutations, In mutations batches -> ~ Observer.hasRemoval mutations) ->
   Observer.after batches = Observer.mkWait true (List.length batches) []) /\
  (forall before first later,
     batches = (before ++ first :: later)%list ->
     (forall mutations, In mutations before -> ~ Observer.hasRemoval mutations) ->
     Observer.hasRemoval first ->
     Observer.after (before ++ [first])
     = Observer.mkWait false (S (List.length before)) [List.length before] /\
     Observer.after batches
     = Observer.mkWait false (S (List.length before)) [List.length before]).
Proof.
  split.
  - intros Hq. unfold Observer.after, Observer.observe.
    now rewrite ObserverFacts.quiet_from.
  - intros before first later -> Hq Hrem.
    unfold Observer.after, Observer.observe.
    rewrite !fold_left_app, ObserverFacts.quiet_from by assumption.
    cbn [fold_left]. rewrite ObserverFacts.deliver_removal by auto.
    cbn [Observer.delivered Observer.resolvedAt]. simpl "++".
    split; [reflexivity|].
    now apply ObserverFacts.deliver_disconnected.
Qed.

(** The overlay is inserted, then removed, then another node is removed:
    [resolve] is called at the second batch only. *)
Lemma clickUK_resolves_once_witness :
  Observer.after
    [ [Observer.mkRecord ["overlay"] []];
      [Observer.mkRecord ["table"] []; Observer.mkRecord [] ["overlay"]];
      [Observer.mkRecord [] ["table"]] ]
  = Observer.mkWait false 2 [1] /\
  Observer.after [ [Observer.mkRecord ["overlay"] []] ]
  = Observer.mkWait true 1 [].
Proof.
  split.
  - destruct (clickUK_resolves_once
                [ [Observer.mkRecord ["overlay"] []];
                  [Observer.mkRecord ["table"] []; Observer.mkRecord [] ["overlay"]];
                  [Observer.mkRecord [] ["table"]] ]) as [_ Hfires].
    destruct (Hfires [ [Observer.mkRecord ["overlay"] []] ]
                [Observer.mkRecord ["table"] []; Observer.mkRecord [] ["overlay"]]
                [ [Observer.mkRecord [] ["table"]] ] eq_refl) as [_ Hafter].
    + intros mutations [<-|[]] (mutation & [<-|[]] & Hremoved). now apply Hremoved.
    + exists (Observer.mkRecord [] ["overlay"]). split; [right; now left | discriminate].
    + exact Hafter.
  - destruct (clickUK_resolves_once [ [Observer.mkRecord ["overlay"] []] ]) as [Hquiet _].
    apply Hquiet.
    intros mutations [<-|[]] (mutation & [<-|[]] & Hremoved). now apply Hremoved.
Defined.

(* ================================================================= *)
(** ** The end-to-end scenario *)

Section EndToEnd.
Local Existing Instance SpecTrigrams.lib.

Let site : Web := Scenario.web [Scenario.candidate] Scenario.detail.

(** C8, as the script has it: for the fixture of the scenario the script
    makes one call of [writeCSV], with the matched names, the kick-off time
    15:00 and a quality above 0; its goals argument is the three goals in
    page order, each as minute, team and score with " : " between them,
    joined by " / ".  This holds of every row: the goals argument is the
    text of the goals joined by " / ". *)
Theorem scenario_goals_column :
  written (actions (run site [Scenario.fixture] None))
  = [ rowValues Scenario.fixture (JS.Str "15:00") Scenario.goals
        (Some Scenario.candidate) (9 # 21)%Q ] /\
  goalsColumn (run site [Scenario.fixture] None)
  = Some (JS.Str "10 : home : 1-0 / 55 : away : 1-1 / 80 : home : 2-1") /\
  textarea_value (run site [Scenario.fixture] None)
  = rowText
      [ JS.Str "E0"; JS.Str "2018-01-01"; JS.Str "Town FC"; JS.Str "City FC";
        JS.Num (JS.ofInt 2); JS.Num (JS.ofInt 1); JS.Str "15:00";
        JS.Str "10 : home : 1-0 / 55 : away : 1-1 / 80 : home : 2-1";
        JS.Num (JS.Thousandths 429); JS.Str "Town F.C."; JS.Str "City F.C." ] /\
  (forall sourceMatch kickOff goals bestMatch bestMatchQuality,
     nth_error (rowValues sourceMatch kickOff goals bestMatch bestMatchQuality) 7
     = Some (JS.Str (JS.join " / " (map goalText goals)))) /\
  (forall minute team score,
     goalText (Goal.mk minute team score)
     = JS.Number_toString minute ++ " : " ++ team ++ " : " ++ score).
Proof.
  split; [vm_compute; reflexivity|].
  split; [vm_compute; reflexivity|].
  split; [vm_compute; reflexivity|].
  split; reflexivity.
Qed.

(** C8, as the spec words it, fails: the goals text of the written row is
    not the text without blanks around the colons. *)
Lemma scenario_goals_column_not_spec_text :
  goalsColumn (run site [Scenario.fixture] None) <> Some (JS.Str specGoalText).
Proof. vm_compute. discriminate. Qed.

End EndToEnd.

(* ================================================================= *)
(** ** Delays around navigations *)

Lemma lastOr_app (prev : option Action) (acts1 acts2 : list Action) :
  lastOr prev (acts1 ++ acts2) = lastOr (lastOr prev acts1) acts2.
Proof.
  revert prev. induction acts1 as [|a acts1 IH]; intros prev; [reflexivity|].
  simpl. apply IH.
Qed.

Lemma pacedAt_more (prev : option Action) (a : Action) (rest more : list Action) :
  pacedAt prev a rest -> pacedAt prev a (rest ++ more).
Proof.
  destruct a as [[|] URL|min max| |values]; simpl; auto.
  - intros [Hprev [rest' ->]]. split; [assumption|]. now exists (rest' ++ more)%list.
  - intros [rest' ->]. now exists (rest' ++ more)%list.
Qed.

Lemma paced_app (acts1 acts2 : list Action) :
  forall prev,
    paced prev acts1 -> paced (lastOr prev acts1) acts2 -> paced prev (acts1 ++ acts2).
Proof.
  induction acts1 as [|a acts1 IH]; intros prev H1 H2; [exact H2|].
  destruct H1 as [Ha H1]. simpl. split.
  - now apply pacedAt_more.
  - apply IH; assumption.
Qed.

Lemma paced_at (pre : list Action) (a : Action) (post : list Action) :
  forall prev, paced prev (pre ++ a :: post) -> pacedAt (lastOr prev pre) a post.
Proof.
  induction pre as [|x pre IH]; intros prev H.
  - exact (proj1 H).
  - simpl. apply IH. exact (proj2 H).
Qed.

Lemma pass_actions_paced (b : Browser) (url : string)
    (bestMatch : option PageMatch.t) (values : list JS.Value) (prev : option Action) :
  prev = None \/ prev = Some (Sleep 2 5) ->
  paced prev (indexActions b url ++ detailActions bestMatch) /\
  paced prev (indexActions b url ++ detailActions bestMatch
              ++ [WriteCSV values; Sleep 2 5]) /\
  lastOr prev (indexActions b url ++ detailActions bestMatch
               ++ [WriteCSV values; Sleep 2 5]) = Some (Sleep 2 5).
Proof.
  intros Hprev. unfold indexActions, detailActions.
  destruct (String.eqb (indexFrame_href b) url), bestMatch as [m|];
    simpl; repeat split; eauto.
Qed.

Section Pacing.
Context {TL : TrigramsLib}.
Variable web : Web.
Variable csv : list SourceMatch.t.

Lemma processMatch_paced (sourceMatch : SourceMatch.t) (b : Browser) :
  atBoundary (actions b) ->
  paced None (actions (fst (processMatch web sourceMatch b))) /\
  (snd (processMatch web sourceMatch b) = Normal tt ->
   atBoundary (actions (fst (processMatch web sourceMatch b)))).
Proof.
  intros [Hpaced Hlast].
  pose proof (processMatch_run web sourceMatch b) as Hrun. cbv zeta in Hrun.
  rewrite Hrun. clear Hrun.
  set (seen := pageMatchesSeen web sourceMatch b).
  set (best := pickBest sourceMatch (matchingPageMatches sourceMatch seen)).
  destruct (readDetail web (fst best)) as [detail|e]; cbn [fst snd actions].
  - set (values := rowValues sourceMatch (fst detail) (snd detail) (fst best) (snd best)).
    destruct (pass_actions_paced b (dateURL sourceMatch) (fst best) values _ Hlast)
      as (_ & Hpass & Hend).
    assert (Hall : paced None
                     (actions b ++ indexActions b (dateURL sourceMatch)
                        ++ detailActions (fst best) ++ [WriteCSV values; Sleep 2 5]))
      by (apply paced_app; assumption).
    split; [exact Hall|]. intros _. split; [exact Hall|].
    right. rewrite lastOr_app. exact Hend.
  - destruct (pass_actions_paced b (dateURL sourceMatch) (fst best) [] _ Hlast)
      as (Hpass & _).
    split; [|discriminate].
    apply paced_app; assumption.
Qed.

Lemma mainLoop_paced (fuel : nat) :
  forall csvIndex b,
    atBoundary (actions b) ->
    paced None (actions (fst (mainLoop web csv fuel csvIndex b))).
Proof.
  induction fuel as [|fuel IH]; intros csvIndex b Hb; simpl.
  - exact (proj1 Hb).
  - destruct (nth_error csv csvIndex) as [sourceMatch|]; [|exact (proj1 Hb)].
    unfold bind.
    destruct (processMatch_paced sourceMatch b Hb) as [Hpaced Hnext].
    destruct (processMatch web sourceMatch b) as [b' [[]|e]]; cbn [fst snd] in *.
    + apply IH. now apply Hnext.
    + exact Hpaced.
Qed.

Lemma whole_run_paced (saved : option string) : paced None (actions (run web csv saved)).
Proof.
  unfold run, main, bind, gets. cbn [fst].
  apply mainLoop_paced. split; [exact I | now left].
Qed.

End Pacing.

(** C5, as the script has it, over a whole run: every load of a match page
    comes right after a delay of 1 to 2 seconds; every load of an index
    page is the first action of the run or comes right after the closing
    delay of the pass before, and is followed at once by a delay of 1 to 2
    seconds and then the click on UK; every row written is followed at once
    by the closing delay of 2 to 5 seconds. *)
Theorem run_paced {TL : TrigramsLib} (web : Web) (csv : list SourceMatch.t)
    (saved : option string) (pre : list Action) (a : Action) (post : list Action) :
  actions (run web csv saved) = (pre ++ a :: post)%list ->
  match a with
  | Navigate matchFrame _ => lastOr None pre = Some (Sleep 1 2)
  | Navigate indexFrame _ =>
      (pre = [] \/ lastOr None pre = Some (Sleep 2 5)) /\
      exists post', post = Sleep 1 2 :: ClickUK :: post'
  | WriteCSV _ => exists post', post = Sleep 2 5 :: post'
  | _ => True
  end.
Proof.
  intros Hsplit.
  pose proof (whole_run_paced web csv saved) as Hpaced.
  rewrite Hsplit in Hpaced. apply paced_at in Hpaced.
  destruct a as [[|] URL|min max| |values]; simpl in Hpaced; auto.
  destruct Hpaced as [[Hnone|Hlast] Hpost]; split; auto.
  left. destruct pre as [|x pre]; [reflexivity|].
  exfalso. simpl in Hnone. clear -Hnone.
  revert x Hnone. induction pre as [|y pre IH]; intros x H; [discriminate|].
  exact (IH y H).
Qed.

Section PacingScenario.
Local Existing Instance SpecTrigrams.lib.

Let site : Web := Scenario.web [Scenario.candidate] Scenario.detail.

(** The load of the match page in the run of the scenario. *)
Lemma run_paced_witness :
  actions (run site [Scenario.fixture] None)
  = ([Navigate indexFrame (dateURL Scenario.fixture); Sleep 1 2; ClickUK; Sleep 1 2]
     ++ Navigate matchFrame Scenario.detailURL
     :: [WriteCSV (rowValues Scenario.fixture (JS.Str "15:00") Scenario.goals
                     (Some Scenario.candidate) (9 # 21)%Q);
         Sleep 2 5])%list /\
  lastOr None
    [Navigate indexFrame (dateURL Scenario.fixture); Sleep 1 2; ClickUK; Sleep 1 2]
  = Some (Sleep 1 2).
Proof.
  assert (Hacts :
    actions (run site [Scenario.fixture] None)
    = ([Navigate indexFrame (dateURL Scenario.fixture); Sleep 1 2; ClickUK; Sleep 1 2]
       ++ Navigate matchFrame Scenario.detailURL
       :: [WriteCSV (rowValues Scenario.fixture (JS.Str "15:00") Scenario.goals
                       (Some Scenario.candidate) (9 # 21)%Q);
           Sleep 2 5])%list) by (vm_compute; reflexivity).
  split; [exact Hacts|].
  exact (run_paced site [Scenario.fixture] None _ _ _ Hacts).
Defined.

(** C5, as the spec words it, fails: the first navigation of a run has no
    delay before it. *)
Lemma first_navigation_not_delayed :
  ~ everyNavigationDelayed (actions (run site [Scenario.fixture] None)).
Proof.
  intros H.
  assert (Hacts : exists post,
             actions (run site [Scenario.fixture] None)
             = ([] ++ Navigate indexFrame (dateURL Scenario.fixture) :: post)%list).
  { eexists. vm_compute. reflexivity. }
  destruct Hacts as [post Hacts].
  destruct (H _ _ _ _ Hacts) as (min & max & []).
Qed.

End PacingScenario.

(* ================================================================= *)
(** ** Counting the rows of the log *)

Lemma matchAll_append (c : ascii) (s1 s2 : string) :
  JS.matchAll c (s1 ++ s2) = (JS.matchAll c s1 ++ JS.matchAll c s2)%list.
Proof.
  induction s1 as [|a s1 IH]; [reflexivity|]. simpl.
  destruct (Ascii.eqb a c); simpl; now rewrite IH.
Qed.


Lemma resumeOffset_matches (value : string) :
  resumeOffset value = List.length (JS.matchAll JS.newline value).
Proof.
  unfold resumeOffset, JS.match_g.
  now destruct (JS.matchAll JS.newline value).
Qed.

Lemma hasChar_join (c : ascii) (sep : string) (arr : list string) :
  hasChar c sep = false ->
  forallb (fun text => negb (hasChar c text)) arr = true ->
  hasChar c (JS.join sep arr) = false.
Proof.
  intros Hsep. unfold JS.join.
  induction arr as [|text arr IH]; [reflexivity|].
  intros H. cbn [forallb] in H. apply andb_true_iff in H as [Htext Harr].
  apply negb_true_iff in Htext.
  destruct arr as [|next arr]; [exact Htext|].
  change (String.concat sep (text :: next :: arr))
    with (text ++ sep ++ String.concat sep (next :: arr)).
  rewrite !hasChar_append, Htext, Hsep, (IH Harr). reflexivity.
Qed.





Lemma skipn_nth_error {A : Type} (l : list A) :
  forall i,
    match nth_error l i with
    | Some x => skipn i l = x :: skipn (S i) l
    | None => skipn i l = []
    end.
Proof.
  induction l as [|y l IH]; intros [|i]; try reflexivity.
  simpl nth_error. specialize (IH i).
  destruct (nth_error l i); exact IH.
Qed.

(* ================================================================= *)
(** ** Resuming *)

Section Resume.
Context {TL : TrigramsLib}.
Variable web : Web.

Lemma pageMatchesSeen_shown (sourceMatch : SourceMatch.t) (b : Browser) :
  indexShown web b ->
  pageMatchesSeen web sourceMatch b = indexUK web (dateURL sourceMatch).
Proof.
  intros Hshown. unfold pageMatchesSeen.
  destruct (String.eqb_spec (indexFrame_href b) (dateURL sourceMatch)) as [Heq|];
    [|reflexivity].
  destruct Hshown as [Hblank|Hshown].
  - exfalso. apply (dateURL_not_blank sourceMatch). congruence.
  - now rewrite Hshown, Heq.
Qed.

(** What one pass does to the log, by the row of the fixture. *)
Lemma processMatch_row (sourceMatch : SourceMatch.t) (b : Browser) :
  indexShown web b -> stored b ->
  let b' := fst (processMatch web sourceMatch b) in
  indexShown web b' /\ stored b' /\
  match passRow web sourceMatch with
  | Normal values =>
      snd (processMatch web sourceMatch b) = Normal tt /\
      textarea_value b' = textarea_value b ++ rowText values /\
      written (actions b') = (written (actions b) ++ [values])%list
  | Throw e =>
      snd (processMatch web sourceMatch b) = Throw e /\
      textarea_value b' = textarea_value b /\
      written (actions b') = written (actions b)
  end.
Proof.
  intros Hshown Hstored b'. subst b'.
  pose proof (processMatch_run web sourceMatch b) as Hrun. cbv zeta in Hrun.
  rewrite Hrun. clear Hrun. unfold passRow.
  rewrite (pageMatchesSeen_shown sourceMatch b Hshown).
  set (best := pickBest sourceMatch
                 (matchingPageMatches sourceMatch (indexUK web (dateURL sourceMatch)))).
  destruct (readDetail web (fst best)) as [detail|e]; cbn [bindC fst snd].
  - split; [now right|]. split; [reflexivity|].
    split; [reflexivity|]. split; [reflexivity|].
    cbn [actions]. rewrite !written_app, written_indexActions, written_detailActions.
    reflexivity.
  - split; [now right|]. split; [exact Hstored|].
    split; [reflexivity|]. split; [reflexivity|].
    cbn [actions]. rewrite !written_app, written_indexActions, written_detailActions.
    now rewrite !app_nil_r.
Qed.

Variable csv : list SourceMatch.t.

(** What the loop does to the log, by the rows of its fixtures. *)
Lemma mainLoop_rows (fuel : nat) :
  forall csvIndex b,
    indexShown web b -> stored b ->
    let result := mainLoop web csv fuel csvIndex b in
    let sources := firstn fuel (skipn csvIndex csv) in
    textarea_value (fst result) = textarea_value b ++ logOf (rowsOf web sources) /\
    written (actions (fst result))
    = (written (actions b) ++ rowsOf web sources)%list /\
    stored (fst result) /\
    (snd result = Normal tt ->
     List.length (rowsOf web sources) = List.length sources).
Proof.
  induction fuel as [|fuel IH]; intros csvIndex b Hshown Hstored; cbv zeta.
  - cbn [mainLoop firstn rowsOf logOf ret fst snd].
    now rewrite append_empty_r, app_nil_r.
  - cbn [mainLoop]. pose proof (skipn_nth_error csv csvIndex) as Hskip.
    destruct (nth_error csv csvIndex) as [sourceMatch|].
    + rewrite Hskip. cbn [firstn rowsOf]. unfold bind.
      destruct (processMatch_row sourceMatch b Hshown Hstored)
        as (Hshown' & Hstored' & Hrow).
      destruct (passRow web sourceMatch) as [values|e].
      * destruct Hrow as (Hnormal & Htext & Hwritten).
        destruct (processMatch web sourceMatch b) as [b' completion].
        cbn [fst snd] in *. subst completion.
        destruct (IH (S csvIndex) b' Hshown' Hstored')
          as (IHtext & IHwritten & IHstored & IHlength).
        cbn [logOf List.length].
        rewrite IHtext, IHwritten, Htext, Hwritten, append_assoc, <- app_assoc.
        repeat split; auto.
      * destruct Hrow as (Hthrow & Htext & Hwritten).
        destruct (processMatch web sourceMatch b) as [b' completion].
        cbn [fst snd] in *. subst completion.
        cbn [fst snd logOf]. rewrite append_empty_r, app_nil_r.
        repeat split; auto. discriminate.
    + rewrite Hskip. cbn [firstn rowsOf logOf ret fst snd].
      now rewrite append_empty_r, app_nil_r.
Qed.

Lemma rowsOf_app (sources1 sources2 : list SourceMatch.t) :
  List.length (rowsOf web sources1) = List.length sources1 ->
  rowsOf web (sources1 ++ sources2)
  = (rowsOf web sources1 ++ rowsOf web sources2)%list.
Proof.
  induction sources1 as [|sourceMatch sources1 IH]; [reflexivity|].
  cbn [rowsOf app]. destruct (passRow web sourceMatch) as [values|e].
  - cbn [List.length]. intros H. injection H as H. now rewrite IH.
  - discriminate.
Qed.

Lemma pageLoad_shown (saved : option string) :
  indexShown web (pageLoad saved) /\ stored (pageLoad saved).
Proof. split; [now left | reflexivity]. Qed.

End Resume.


Section ResumeScenario.
Local Existing Instance SpecTrigrams.lib.



End ResumeScenario.

(* ================================================================= *)
(** ** Further properties *)

(** X1: when no match shown has the score of the fixture, nothing passes the
    filter, no match is picked, and the pass writes the row of an unmatched
    fixture: no kick-off time, no goals, quality 0, no matched names. *)
Theorem other_scores_no_match {TL : TrigramsLib}
    (web : Web) (sourceMatch : SourceMatch.t) (b : Browser) :
  (forall c,
     In c (pageMatchesSeen web sourceMatch b) ->
     PageMatch.score c
     <> SourceMatch.homegoals sourceMatch ++ " - " ++ SourceMatch.awaygoals sourceMatch) ->
  matchingPageMatches sourceMatch (pageMatchesSeen web sourceMatch b) = [] /\
  pickBest sourceMatch (matchingPageMatches sourceMatch (pageMatchesSeen web sourceMatch b))
  = (None, 0%Q) /\
  exists b',
    processMatch web sourceMatch b = (b', Normal tt) /\
    written (actions b')
    = (written (actions b) ++ [rowValues sourceMatch JS.Null [] None 0%Q])%list.
Proof.
  intros Hscores.
  assert (Hnone : matchingPageMatches sourceMatch (pageMatchesSeen web sourceMatch b) = []).
  { destruct (matchingPageMatches sourceMatch (pageMatchesSeen web sourceMatch b))
      as [|c rest] eqn:Hfilter; [reflexivity|].
    exfalso.
    assert (Hc : In c (matchingPageMatches sourceMatch (pageMatchesSeen web sourceMatch b)))
      by (rewrite Hfilter; now left).
    apply filter_In in Hc as [Hin Hkeep].
    apply sameScoreAndLeague_iff in Hkeep as [Hscore _].
    exact (Hscores c Hin Hscore). }
  split; [exact Hnone|]. rewrite Hnone. split; [reflexivity|].
  pose proof (processMatch_run web sourceMatch b) as Hrun.
  cbv zeta in Hrun. rewrite Hnone in Hrun. cbn [pickBest fold_left fst snd readDetail] in Hrun.
  eexists. split; [exact Hrun|].
  cbn [actions]. rewrite !written_app, written_indexActions. reflexivity.
Qed.

Section OtherScoreScenario.
Local Existing Instance SpecTrigrams.lib.

(** The fixture of the scenario against its candidate listed as 1 - 1. *)
Lemma other_scores_no_match_witness :
  written
    (actions
       (fst (processMatch (Scenario.web [Scenario.otherScore] Scenario.detail)
               Scenario.fixture (pageLoad None))))
  = [rowValues Scenario.fixture JS.Null [] None 0%Q].
Proof.
  destruct (other_scores_no_match
              (Scenario.web [Scenario.otherScore] Scenario.detail)
              Scenario.fixture (pageLoad None))
    as (_ & _ & b' & Hrun & Hwritten).
  - intros c [<-|[]]. discriminate.
  - rewrite Hrun. exact Hwritten.
Defined.

End OtherScoreScenario.

(** X2: a listener added with [addOneTimeEventListener] to a frame that has no
    listener waiting is called at the first [load] event and at no later
    one, and is no longer registered from then on. *)
Theorem one_time_listener_called_once (listener n : nat) (t : Listeners.EventTarget) :
  Listeners.registered t = [] ->
  Listeners.called
    (Listeners.dispatches (S n) (Listeners.addOneTimeEventListener listener t))
  = (Listeners.called t ++ [listener])%list /\
  Listeners.registered
    (Listeners.dispatches (S n) (Listeners.addOneTimeEventListener listener t))
  = [].
Proof.
  intros Hnone.
  assert (Hidle : forall k u, Listeners.registered u = [] -> Listeners.dispatches k u = u).
  { induction k as [|k IH]; intros u Hu; [reflexivity|].
    simpl. unfold Listeners.dispatch. rewrite Hu. simpl. now apply IH. }
  cbn [Listeners.dispatches].
  assert (Hfirst :
    Listeners.dispatch (Listeners.addOneTimeEventListener listener t)
    = Listeners.mkTarget (S (Listeners.nextId t)) []
        (Listeners.called t ++ [listener])).
  { unfold Listeners.dispatch, Listeners.addOneTimeEventListener,
      Listeners.isRegistered, Listeners.wrappedListener, Listeners.removeEventListener.
    rewrite Hnone. simpl. now rewrite Nat.eqb_refl. }
  rewrite Hfirst, Hidle by reflexivity. split; reflexivity.
Qed.

(** Three [load] events after one registration. *)
Lemma one_time_listener_called_once_witness :
  Listeners.called
    (Listeners.dispatches 3
       (Listeners.addOneTimeEventListener 7 (Listeners.mkTarget 0 [] [])))
  = [7].
Proof.
  apply (one_time_listener_called_once 7 2 (Listeners.mkTarget 0 [] [])).
  reflexivity.
Defined.

(* ================================================================= *)
(** ** The fixture file *)

Module TextFacts.
Import Text.

Lemma split_not_nil (c : ascii) (s : string) : split c s <> [].
Proof.
  induction s as [|a s IH]; simpl; [discriminate|].
  destruct (Ascii.eqb a c); [discriminate|].
  destruct (split c s); discriminate.
Qed.

Lemma split_plain (c : ascii) (s : string) :
  hasChar c s = false -> split c s = [s].
Proof.
  induction s as [|a s IH]; simpl; [reflexivity|].
  intros H. apply orb_false_iff in H as [Ha Hs]. now rewrite Ha, (IH Hs).
Qed.

Lemma split_at (c : ascii) (s1 s2 : string) :
  split c (s1 ++ String c s2) = (split c s1 ++ split c s2)%list.
Proof.
  induction s1 as [|a s1 IH]; simpl.
  - now rewrite Ascii.eqb_refl.
  - destruct (Ascii.eqb a c); [now rewrite IH|].
    rewrite IH. pose proof (split_not_nil c s1) as Hne.
    destruct (split c s1) as [|piece pieces]; [congruence | reflexivity].
Qed.

Lemma split_join (c : ascii) (pieces : list string) :
  pieces <> [] ->
  forallb (fun piece => negb (hasChar c piece)) pieces = true ->
  split c (JS.join (JS.str c) pieces) = pieces.
Proof.
  unfold JS.join.
  induction pieces as [|piece pieces IH]; [congruence|].
  intros _ H. cbn [forallb] in H. apply andb_true_iff in H as [Hpiece Hrest].
  apply negb_true_iff in Hpiece.
  destruct pieces as [|next pieces].
  - simpl. now apply split_plain.
  - change (String.concat (JS.str c) (piece :: next :: pieces))
      with (piece ++ String c (String.concat (JS.str c) (next :: pieces))).
    rewrite split_at, split_plain by assumption.
    rewrite IH by (assumption || discriminate). reflexivity.
Qed.



End TextFacts.

Module ObjFacts.
Import Obj.





Lemma assign_new (key : string) (value : option string) (obj : t) :
  ~ In key (keys obj) -> assign key value obj = (obj ++ [(key, value)])%list.
Proof.
  induction obj as [|[k v] obj IH]; simpl; [reflexivity|].
  intros Hnot. destruct (String.eqb_spec k key) as [->|Hne]; [tauto|].
  rewrite IH by tauto. reflexivity.
Qed.

End ObjFacts.

Section FillCols.
Variable fields : list string.



(** The object after the loop, for headers that are all new names. *)
Lemma fillCols_new (headers : list string) :
  NoDup headers -> ~ In "__proto__" headers ->
  forall i cols,
    (forall header, In header headers -> ~ In header (Obj.keys cols)) ->
    fillCols headers fields i cols
    = (cols ++ map (fun j => (nth j headers "", nth_error fields (i + j)))
                 (seq 0 (List.length headers)))%list.
Proof.
  induction headers as [|first headers IH]; intros Hdup Hproto i cols Hnew.
  - simpl. now rewrite app_nil_r.
  - inversion Hdup as [|? ? Hfirst Hrest]; subst.
    cbn [fillCols]. unfold Obj.set.
    replace (String.eqb first "__proto__") with false
      by (symmetry; apply String.eqb_neq; simpl in Hproto; intros ->; tauto).
    rewrite ObjFacts.assign_new by (apply Hnew; now left).
    rewrite IH; [|assumption|simpl in Hproto; tauto|].
    + rewrite <- app_assoc. f_equal. cbn [List.length seq map app nth].
      rewrite Nat.add_0_r. f_equal.
      rewrite <- seq_shift, map_map. apply map_ext.
      intros j. f_equal. f_equal. lia.
    + intros header Hin. unfold Obj.keys. rewrite map_app, in_app_iff. simpl.
      intros [Hold|[->|[]]].
      * apply (Hnew header); [now right | exact Hold].
      * contradiction.
Qed.

End FillCols.


Lemma header_cells (headers : list string) :
  forall row : list string,
    List.length row = List.length headers ->
    map (fun j => (nth j headers "", nth_error row j)) (seq 0 (List.length headers))
    = combine headers (map Some row).
Proof.
  induction headers as [|header headers IH]; intros row Hlen; [reflexivity|].
  destruct row as [|cell row]; [discriminate|].
  cbn [List.length seq map combine nth nth_error]. f_equal.
  rewrite <- seq_shift, map_map. cbn [nth nth_error].
  apply IH. simpl in Hlen. lia.
Qed.

Lemma map_nth_seq (l : list string) :
  map (fun j => nth j l "") (seq 0 (List.length l)) = l.
Proof.
  induction l as [|x l IH]; [reflexivity|].
  cbn [List.length seq map nth]. f_equal.
  rewrite <- seq_shift, map_map. exact IH.
Qed.

Lemma plain_join (cells : list string) :
  forallb plainCell cells = true ->
  hasChar JS.newline (JS.join "," cells) = false.
Proof.
  intros H. apply hasChar_join; [reflexivity|].
  rewrite forallb_forall in *. intros cell Hin. specialize (H cell Hin).
  unfold plainCell in H. now apply andb_true_iff in H as [_ H].
Qed.

Lemma plain_split (cells : list string) :
  cells <> [] -> forallb plainCell cells = true ->
  Text.split "," (JS.join "," cells) = cells.
Proof.
  intros Hne H. apply (TextFacts.split_join "," cells Hne).
  rewrite forallb_forall in *. intros cell Hin. specialize (H cell Hin).
  unfold plainCell in H. now apply andb_true_iff in H as [H _].
Qed.



(** The lines of a table's text are its header and rows, cells joined. *)
Lemma split_tableText (headers : list string) (rows : list (list string)) :
  forallb plainCell headers = true ->
  Forall (fun row => forallb plainCell row = true) rows ->
  Text.split JS.newline (tableText headers rows)
  = map (JS.join ",") (headers :: rows).
Proof.
  intros Hplain Hrows. unfold tableText.
  apply TextFacts.split_join; [discriminate|].
  rewrite forallb_forall. intros line Hin. apply negb_true_iff.
  apply in_map_iff in Hin as (cells & <- & Hcells). apply plain_join.
  destruct Hcells as [<-|Hcells]; [assumption|].
  rewrite Forall_forall in Hrows. now apply Hrows.
Qed.

(** The object of a row as long as the header pairs each header with the
    cell below it. *)
Lemma rowObject_cells (headers row : list string) :
  headers <> [] -> NoDup headers -> ~ In "__proto__" headers ->
  List.length row = List.length headers ->
  forallb plainCell row = true ->
  rowObject headers (JS.join "," row) = combine headers (map Some row).
Proof.
  intros Hne Hdup Hproto Hlen Hcells. unfold rowObject.
  rewrite plain_split; [|destruct row, headers; simpl in *; congruence|assumption].
  rewrite fillCols_new by (assumption || (intros header _ [])).
  cbn [app]. now apply header_cells.
Qed.



(** X5: a file of fixtures under the six headers of the loop body, with no
    comma or line break in any cell, is read back as the fixtures: every
    object has its six columns, and line 174 gives the index page of its
    date. *)
Theorem loadSimpleCSV_fixtures (fixtures : list SourceMatch.t) :
  Forall (fun sourceMatch => forallb plainCell (cellsOf sourceMatch) = true) fixtures ->
  map sourceMatchOf (loadSimpleCSV (tableText fixtureHeaders (map cellsOf fixtures)))
  = map Some fixtures /\
  map dateURLOf (loadSimpleCSV (tableText fixtureHeaders (map cellsOf fixtures)))
  = map (fun sourceMatch => Normal (dateURL sourceMatch)) fixtures.
Proof.
  intros Hplain.
  assert (Hread :
    loadSimpleCSV (tableText fixtureHeaders (map cellsOf fixtures))
    = map (fun sourceMatch => combine fixtureHeaders (map Some (cellsOf sourceMatch)))
        fixtures).
  { unfold loadSimpleCSV. rewrite split_tableText.
    - cbn [map hd tl]. rewrite plain_split by (discriminate || reflexivity).
      rewrite !map_map. apply map_ext_in. intros sourceMatch Hin.
      rewrite Forall_forall in Hplain. apply rowObject_cells.
      + discriminate.
      + repeat constructor; simpl; intuition discriminate.
      + simpl; intuition discriminate.
      + reflexivity.
      + now apply Hplain.
    - reflexivity.
    - rewrite Forall_forall in *. intros row Hin.
      apply in_map_iff in Hin as (sourceMatch & <- & Hin). now apply Hplain. }
  rewrite Hread, !map_map. split; apply map_ext; now intros [].
Qed.

(** The fixture of the scenario, as a file of two lines. *)
Lemma loadSimpleCSV_fixtures_witness :
  map sourceMatchOf
    (loadSimpleCSV (tableText fixtureHeaders [cellsOf Scenario.fixture]))
  = [Some Scenario.fixture].
Proof.
  apply (loadSimpleCSV_fixtures [Scenario.fixture]).
  repeat constructor.
Defined.





(* ================================================================= *)
(** ** The matches of an index page *)

Module RegExpFacts.
Import RegExp.

Lemma closingSlash_startsAtSlash : startsAtSlash closingSlash.
Proof.
  intros a rest Ha. unfold closingSlash.
  destruct a as [[] [] [] [] [] [] [] []]; try reflexivity. now elim Ha.
Qed.

Lemma slashThenPath_startsAtSlash : startsAtSlash slashThenPath.
Proof.
  intros a rest Ha. unfold slashThenPath.
  destruct a as [[] [] [] [] [] [] [] []]; try reflexivity. now elim Ha.
Qed.

(** [.+?] takes a whole segment when what follows can only start at a
    slash. *)
Lemma dotPlusLazy_segment (next : string -> option string) (s matched : string) :
  startsAtSlash next -> next s = Some matched ->
  forall segment,
    isSegment segment = true ->
    dotPlusLazy next (segment ++ s) = Some (segment ++ matched).
Proof.
  intros Hslash Hnext segment. unfold isSegment.
  induction segment as [|a segment IH]; [discriminate|].
  intros H. cbn [String.eqb negb andb allChars] in H.
  apply andb_true_iff in H as [Ha Hrest]. unfold segmentChar in Ha.
  apply andb_true_iff in Ha as [Hnoslash Hline].
  apply negb_true_iff in Hline. apply negb_true_iff in Hnoslash.
  cbn [append dotPlusLazy]. rewrite Hline.
  destruct segment as [|b segment].
  - cbn [append]. now rewrite Hnext.
  - assert (Hb : Ascii.eqb b "/" = false).
    { cbn [allChars] in Hrest. apply andb_true_iff in Hrest as [Hb _].
      unfold segmentChar in Hb.
      apply andb_true_iff in Hb as [Hb _]. now apply negb_true_iff in Hb. }
    cbn [append]. rewrite Hslash by (intros ->; discriminate).
    change (String b (segment ++ s)) with (String b segment ++ s).
    rewrite IH; [reflexivity|]. cbn [String.eqb negb andb]. exact Hrest.
Qed.

Lemma group_of_path (country league rest : string) :
  isSegment country = true -> isSegment league = true ->
  dotPlusLazy slashThenPath (country ++ "/" ++ league ++ "/" ++ rest)
  = Some (country ++ "/" ++ league).
Proof.
  intros Hcountry Hleague.
  apply dotPlusLazy_segment; [apply slashThenPath_startsAtSlash| |assumption].
  cbn [append slashThenPath].
  rewrite (dotPlusLazy_segment closingSlash (String "/" rest) ""
             closingSlash_startsAtSlash eq_refl league Hleague).
  now rewrite append_empty_r.
Qed.

Lemma digits_append (n : nat) (s : string) :
  forall d r, digits n d = Some r -> digits n (d ++ s) = Some (r ++ s).
Proof.
  induction n as [|n IH]; intros d r H; simpl in *.
  - now injection H as ->.
  - destruct d as [|c d]; [discriminate|]. simpl.
    destruct (isDigit c); [now apply IH | discriminate].
Qed.

Lemma literal_append (lit s : string) :
  forall d r, literal lit d = Some r -> literal lit (d ++ s) = Some (r ++ s).
Proof.
  induction lit as [|a lit IH]; intros d r H; simpl in *.
  - now injection H as ->.
  - destruct d as [|c d]; [discriminate|]. simpl.
    destruct (Ascii.eqb a c); [now apply IH | discriminate].
Qed.

Lemma matchHere_date (date s : string) :
  isSlashedDate date = true ->
  matchHere ("/matches/" ++ date ++ "/" ++ s) = dotPlusLazy slashThenPath s.
Proof.
  unfold isSlashedDate. intros H.
  destruct (digits 4 date) as [s1|] eqn:H1; [|discriminate].
  destruct (literal "/" s1) as [s2|] eqn:H2; [|discriminate].
  destruct (digits 2 s2) as [s3|] eqn:H3; [|discriminate].
  destruct (literal "/" s3) as [s4|] eqn:H4; [|discriminate].
  destruct (digits 2 s4) as [s5|] eqn:H5; [|discriminate].
  destruct s5; [|discriminate].
  unfold matchHere.
  change (literal "/matches/" ("/matches/" ++ date ++ "/" ++ s))
    with (Some (date ++ "/" ++ s)).
  cbv iota beta.
  rewrite (digits_append 4 _ _ _ H1). cbv iota beta.
  rewrite (literal_append "/" _ _ _ H2). cbv iota beta.
  rewrite (digits_append 2 _ _ _ H3). cbv iota beta.
  rewrite (literal_append "/" _ _ _ H4). cbv iota beta.
  rewrite (digits_append 2 _ _ _ H5). cbv iota beta.
  reflexivity.
Qed.

(** The pattern matches nowhere in the origin of the site: a match at the
    start of the path is the leftmost one. *)
Lemma divOf_site (path group : string) :
  matchHere path = Some group ->
  divOf ("https://uk.soccerway.com" ++ path) = Some group.
Proof.
  intros Hmatch.
  assert (Hhere : divOf path = Some group)
    by (destruct path; cbn [divOf]; now rewrite Hmatch).
  cbn. exact Hhere.
Qed.

End RegExpFacts.

(** X7: for every link of the site to a match, of the form
    [https://uk.soccerway.com/matches/YYYY/MM/DD/country/league/...],
    the division [getMatches] reads off it is [country/league]. *)
Theorem divOf_site_link (date country league rest : string) :
  isSlashedDate date = true ->
  isSegment country = true -> isSegment league = true ->
  RegExp.divOf ("https://uk.soccerway.com/matches/" ++ date ++ "/"
                ++ country ++ "/" ++ league ++ "/" ++ rest)
  = Some (country ++ "/" ++ league).
Proof.
  intros Hdate Hcountry Hleague.
  apply (RegExpFacts.divOf_site
           ("/matches/" ++ date ++ "/" ++ country ++ "/" ++ league ++ "/" ++ rest)).
  rewrite RegExpFacts.matchHere_date by assumption.
  now apply RegExpFacts.group_of_path.
Qed.

(** The link of the scenario's match. *)
Lemma divOf_site_link_witness :
  RegExp.divOf Scenario.detailURL = Some "england/premier-league".
Proof.
  apply (divOf_site_link "2018/01/01" "england" "premier-league" "town/city/1/");
    reflexivity.
Defined.

(** X8: a match whose link lies under the path that [leagueMap] gives
    for a division code, also with more text after the name of the league
    as the conference links have it, is read with a division that passes
    the test of line 185 for a fixture of that code. *)
Theorem league_links_pass_division (code path : string) :
  In (code, path) leagueMap ->
  forall date suffix rest,
    isSlashedDate date = true -> allChars segmentChar suffix = true ->
    RegExp.divOf ("https://uk.soccerway.com/matches/" ++ date ++ "/"
                  ++ path ++ suffix ++ "/" ++ rest)
    = Some (path ++ suffix) /\
    JS.startsWith (path ++ suffix) (searchString (property leagueMap code)) = true.
Proof.
  intros Hin date suffix rest Hdate Hsuffix.
  assert (Hsegment : forall name a, segmentChar a = true ->
            allChars segmentChar name = true ->
            isSegment (String a name ++ suffix) = true).
  { intros name a Ha Hname. unfold isSegment. cbn [append String.eqb negb andb allChars].
    now rewrite Ha, allChars_append, Hname, Hsuffix. }
  assert (Hdiv : forall country league,
            isSegment country = true -> isSegment league = true ->
            RegExp.divOf ("https://uk.soccerway.com/matches/" ++ date ++ "/"
                          ++ country ++ "/" ++ league ++ "/" ++ rest)
            = Some (country ++ "/" ++ league)).
  { intros country league Hcountry Hleague.
    apply (RegExpFacts.divOf_site
             ("/matches/" ++ date ++ "/" ++ country ++ "/" ++ league ++ "/" ++ rest)).
    rewrite RegExpFacts.matchHere_date by assumption.
    now apply RegExpFacts.group_of_path. }
  simpl in Hin.
  repeat (destruct Hin as [Hin|Hin];
          [injection Hin as <- <-; split;
           [|apply startsWith_iff; now exists suffix]|]);
    [..|contradiction].
  - apply (Hdiv "england" ("premier-league" ++ suffix)); auto; now apply Hsegment.
  - apply (Hdiv "england" ("championship" ++ suffix)); auto; now apply Hsegment.
  - apply (Hdiv "england" ("league-one" ++ suffix)); auto; now apply Hsegment.
  - apply (Hdiv "england" ("league-two" ++ suffix)); auto; now apply Hsegment.
  - apply (Hdiv "england" ("conference" ++ suffix)); auto; now apply Hsegment.
  - apply (Hdiv "scotland" ("premier-league" ++ suffix)); auto; now apply Hsegment.
  - apply (Hdiv "scotland" ("first-division" ++ suffix)); auto; now apply Hsegment.
  - apply (Hdiv "scotland" ("second-division" ++ suffix)); auto; now apply Hsegment.
  - apply (Hdiv "scotland" ("third-division" ++ suffix)); auto; now apply Hsegment.
Qed.

(** A conference link with more text after the name of the league. *)
Lemma league_links_pass_division_witness :
  RegExp.divOf
    "https://uk.soccerway.com/matches/2018/01/01/england/conference-national/a/b/1/"
  = Some "england/conference-national" /\
  JS.startsWith "england/conference-national"
    (searchString (property leagueMap "EC")) = true.
Proof.
  apply (league_links_pass_division "EC" "england/conference"
           ltac:(simpl; tauto) "2018/01/01" "-national" "a/b/1/");
    reflexivity.
Defined.

(** *** All rows or none *)

Lemma mapC_normal {A B : Type} (f : A -> Completion B) (arr : list A) :
  forall results,
    mapC f arr = Normal results <->
    Forall2 (fun x y => f x = Normal y) arr results.
Proof.
  induction arr as [|x arr IH]; intros results; simpl.
  - split; [intros H; injection H as <-; constructor | intros H; now inversion H].
  - split.
    + destruct (f x) as [y|e] eqn:Hx; simpl; [|discriminate].
      destruct (mapC f arr) as [ys|e]; simpl; [|discriminate].
      intros H. injection H as <-. constructor; [exact Hx | now apply IH].
    + intros H. inversion H as [|? y ? ys Hx Hrest]; subst.
      rewrite Hx. simpl. apply IH in Hrest. now rewrite Hrest.
Qed.

Lemma mapC_throw {A B : Type} (f : A -> Completion B) (arr : list A) :
  mapC f arr = Throw TypeError <-> exists x, In x arr /\ f x = Throw TypeError.
Proof.
  induction arr as [|x arr IH]; simpl.
  - split; [discriminate | intros (x & [] & _)].
  - destruct (f x) as [y|[]] eqn:Hx; simpl.
    + destruct (mapC f arr) as [ys|[]]; simpl.
      * split; [discriminate|]. intros (x' & [<-|Hin] & Hthrow); [congruence|].
        assert (H : Normal ys = Throw TypeError) by (apply IH; eauto).
        discriminate H.
      * split; [|reflexivity]. intros _.
        destruct (proj1 IH eq_refl) as (x' & Hin & Hthrow). eauto.
    + split; [|reflexivity]. intros _. exists x. auto.
Qed.

Lemma readRow_normal (tr : IndexDOM.Row) (m : PageMatch.t) :
  readRow tr = Normal m <->
  IndexDOM.teamA_title tr = Some (PageMatch.home m) /\
  IndexDOM.teamB_title tr = Some (PageMatch.away m) /\
  PageMatch.score m
  = match IndexDOM.scoreLink tr with Some text => text | None => "999 - 999" end /\
  IndexDOM.infoLink_href tr = Some (PageMatch.URL m) /\
  RegExp.divOf (PageMatch.URL m) = Some (PageMatch.div m).
Proof.
  unfold readRow. destruct tr as [teamA teamB scoreLink href]; cbn.
  destruct teamA as [home|], teamB as [away|], href as [URL|]; cbn;
    try (split; [discriminate | intros (H1 & H2 & _ & H4 & _); discriminate]).
  destruct (RegExp.divOf URL) as [div|] eqn:Hdiv; cbn.
  - split.
    + intros H. injection H as <-. cbn. now rewrite Hdiv.
    + destruct m as [home' score' away' URL' div']; cbn.
      intros (H1 & H2 & -> & H4 & H5).
      injection H1 as ->. injection H2 as ->. injection H4 as ->.
      rewrite Hdiv in H5. now injection H5 as ->.
  - split; [discriminate|]. intros (_ & _ & _ & H4 & H5).
    injection H4 as H4. rewrite <- H4 in H5. congruence.
Qed.

(** X9: [getMatches] gives one match per row of the page, in the order of
    the page, when every row has both team links, the link of the cell and
    a division in that link; a row without score link is given the score
    text 999 - 999.  A single row that lacks one of the three links, or
    whose link holds no division, makes the whole call throw: no match of
    the page is returned. *)
Theorem getMatchesOf_all_or_nothing (rows : list IndexDOM.Row) :
  (forall matches,
     getMatchesOf rows = Normal matches <->
     Forall2
       (fun tr m =>
          IndexDOM.teamA_title tr = Some (PageMatch.home m) /\
          IndexDOM.teamB_title tr = Some (PageMatch.away m) /\
          PageMatch.score m
          = match IndexDOM.scoreLink tr with Some text => text | None => "999 - 999" end /\
          IndexDOM.infoLink_href tr = Some (PageMatch.URL m) /\
          RegExp.divOf (PageMatch.URL m) = Some (PageMatch.div m))
       rows matches) /\
  (forall matches, getMatchesOf rows = Normal matches ->
                   List.length matches = List.length rows) /\
  (getMatchesOf rows = Throw TypeError <->
   exists tr,
     In tr rows /\
     (IndexDOM.teamA_title tr = None \/ IndexDOM.teamB_title tr = None \/
      IndexDOM.infoLink_href tr = None \/
      exists URL, IndexDOM.infoLink_href tr = Some URL /\ RegExp.divOf URL = None)).
Proof.
  unfold getMatchesOf. split; [|split].
  - intros matches. rewrite mapC_normal.
    split; intros H; (eapply Forall2_impl; [|exact H]); intros tr m; apply readRow_normal.
  - intros matches H. apply mapC_normal in H. symmetry. eapply Forall2_length, H.
  - rewrite mapC_throw. split; intros (tr & Hin & H); exists tr; (split; [exact Hin|]).
    + unfold readRow in H. destruct tr as [[home|] [away|] scoreLink [URL|]]; cbn in *; auto.
      destruct (RegExp.divOf URL) eqn:Hdiv; [discriminate|].
      right. right. right. now exists URL.
    + unfold readRow. destruct tr as [[home|] [away|] scoreLink [URL|]]; cbn in *;
        try reflexivity.
      destruct H as [H|[H|[H|(URL' & H & Hdiv)]]]; try discriminate.
      injection H as <-. now rewrite Hdiv.
Qed.

(** A page with a match still to be played after one whose link is
    missing. *)
Lemma getMatchesOf_all_or_nothing_witness :
  getMatchesOf
    [ IndexDOM.mkRow (Some "Town F.C.") (Some "City F.C.") None (Some Scenario.detailURL) ]
  = Normal [ PageMatch.mk "Town F.C." "999 - 999" "City F.C." Scenario.detailURL
               "england/premier-league" ] /\
  getMatchesOf
    [ IndexDOM.mkRow (Some "Town F.C.") (Some "City F.C.") (Some "2 - 1") None;
      IndexDOM.mkRow (Some "Town F.C.") (Some "City F.C.") None (Some Scenario.detailURL) ]
  = Throw TypeError.
Proof.
  split.
  - apply (proj1 (getMatchesOf_all_or_nothing _)).
    constructor; [|constructor]. repeat split; reflexivity.
  - apply (proj2 (proj2 (getMatchesOf_all_or_nothing _))).
    eexists. split; [now left|]. right. right. now left.
Defined.

Lemma score_text_999 (homegoals awaygoals : string) :
  homegoals ++ " - " ++ awaygoals = "999 - 999" ->
  homegoals = "999" /\ awaygoals = "999".
Proof.
  intros H.
  do 10 (destruct homegoals as [|? homegoals];
         [cbn in H; try discriminate H; injection H as <-; now split
         |cbn in H; try discriminate H; injection H as ? H; subst]).
Qed.

(** X10: a match still to be played, which has no score link, never passes
    the filter of lines 183-186, unless the source gives 999 for both the
    home and the away goals. *)
Theorem unplayed_never_matches
    (tr : IndexDOM.Row) (m : PageMatch.t) (sourceMatch : SourceMatch.t) :
  readRow tr = Normal m ->
  IndexDOM.scoreLink tr = None ->
  SourceMatch.homegoals sourceMatch <> "999" \/ SourceMatch.awaygoals sourceMatch <> "999" ->
  sameScoreAndLeague sourceMatch m = false /\
  forall earlier later,
    matchingPageMatches sourceMatch (earlier ++ m :: later)
    = matchingPageMatches sourceMatch (earlier ++ later).
Proof.
  intros Hread Hlink Hgoals.
  apply readRow_normal in Hread as (_ & _ & Hscore & _). rewrite Hlink in Hscore.
  assert (Hfalse : sameScoreAndLeague sourceMatch m = false).
  { unfold sameScoreAndLeague. rewrite Hscore.
    destruct (String.eqb_spec "999 - 999"
                (SourceMatch.homegoals sourceMatch ++ " - "
                 ++ SourceMatch.awaygoals sourceMatch)) as [Heq|]; [|reflexivity].
    symmetry in Heq. apply score_text_999 in Heq. tauto. }
  split; [exact Hfalse|]. intros earlier later.
  unfold matchingPageMatches. rewrite !filter_app. cbn [filter]. now rewrite Hfalse.
Qed.

(** The fixture of the scenario against its match before it is played. *)
Lemma unplayed_never_matches_witness :
  sameScoreAndLeague Scenario.fixture
    (PageMatch.mk "Town F.C." "999 - 999" "City F.C." Scenario.detailURL
       "england/premier-league") = false.
Proof.
  apply (unplayed_never_matches
           (IndexDOM.mkRow (Some "Town F.C.") (Some "City F.C.") None
              (Some Scenario.detailURL))
           _ Scenario.fixture eq_refl eq_refl).
  left. discriminate.
Defined.

(* ================================================================= *)
(** ** The match page *)

Lemma findAfter_found (label : string) (before : list DOM.Element)
    (el : DOM.Element) (later : list DOM.Element) :
  Forall (siblingOther label) before ->
  DOM.previousElementSibling el = Some label ->
  findAfter label (before ++ el :: later) = Normal (Some el).
Proof.
  intros Hbefore Hel. induction Hbefore as [|x before (text & Hx & Hne) _ IH]; simpl.
  - rewrite Hel. simpl. now rewrite String.eqb_refl.
  - rewrite Hx. simpl. apply String.eqb_neq in Hne. now rewrite Hne.
Qed.

Lemma findAfter_none (label : string) (els : list DOM.Element) :
  Forall (siblingOther label) els -> findAfter label els = Normal None.
Proof.
  intros H. induction H as [|x els (text & Hx & Hne) _ IH]; simpl; [reflexivity|].
  rewrite Hx. simpl. apply String.eqb_neq in Hne. now rewrite Hne.
Qed.

Lemma findAfter_throw (label : string) (before : list DOM.Element)
    (el : DOM.Element) (later : list DOM.Element) :
  Forall (siblingOther label) before ->
  DOM.previousElementSibling el = None ->
  findAfter label (before ++ el :: later) = Throw TypeError.
Proof.
  intros Hbefore Hel. induction Hbefore as [|x before (text & Hx & Hne) _ IH]; simpl.
  - now rewrite Hel.
  - rewrite Hx. simpl. apply String.eqb_neq in Hne. now rewrite Hne.
Qed.

(** X11: the kick-off time is the trimmed text of the first [.details
    span] that comes after an element with text KO, whatever the [dd]
    elements are; without such a span, of the first [.details dd] that
    comes after an element with text Kick-off.  With neither, and also when
    an element without a previous sibling comes before the one looked for,
    reading the kick-off time throws a [TypeError]. *)
Theorem getKickOff_cases (doc : DOM.MatchDocument) :
  (forall before el later,
     DOM.detailsSpans doc = (before ++ el :: later)%list ->
     Forall (siblingOther "KO") before ->
     DOM.previousElementSibling el = Some "KO" ->
     getKickOff doc = Normal (JS.trim (DOM.textContent el))) /\
  (forall before el later,
     Forall (siblingOther "KO") (DOM.detailsSpans doc) ->
     DOM.detailsDds doc = (before ++ el :: later)%list ->
     Forall (siblingOther "Kick-off") before ->
     DOM.previousElementSibling el = Some "Kick-off" ->
     getKickOff doc = Normal (JS.trim (DOM.textContent el))) /\
  (Forall (siblingOther "KO") (DOM.detailsSpans doc) ->
   Forall (siblingOther "Kick-off") (DOM.detailsDds doc) ->
   getKickOff doc = Throw TypeError) /\
  (forall before el later,
     DOM.detailsSpans doc = (before ++ el :: later)%list ->
     Forall (siblingOther "KO") before ->
     DOM.previousElementSibling el = None ->
     getKickOff doc = Throw TypeError) /\
  (forall before el later,
     Forall (siblingOther "KO") (DOM.detailsSpans doc) ->
     DOM.detailsDds doc = (before ++ el :: later)%list ->
     Forall (siblingOther "Kick-off") before ->
     DOM.previousElementSibling el = None ->
     getKickOff doc = Throw TypeError).
Proof.
  unfold getKickOff. repeat split.
  - intros before el later -> Hbefore Hel. now rewrite findAfter_found.
  - intros before el later Hspans -> Hbefore Hel.
    now rewrite findAfter_none, findAfter_found.
  - intros Hspans Hdds. now rewrite !findAfter_none.
  - intros before el later -> Hbefore Hel. now rewrite findAfter_throw.
  - intros before el later Hspans -> Hbefore Hel.
    now rewrite findAfter_none, findAfter_throw.
Qed.

(** The page of the scenario, and a page without kick-off time. *)
Lemma getKickOff_cases_witness :
  getKickOff Scenario.detail = Normal "15:00" /\
  getKickOff Scenario.detailScotland = Normal "15:00" /\
  getKickOff (DOM.mkMatchDocument [] [DOM.mkElement "Sat 1 Jan" (Some "Date")] [] [])
  = Throw TypeError.
Proof.
  split; [|split].
  - destruct (getKickOff_cases Scenario.detail) as (_ & Hdd & _).
    apply (Hdd [DOM.mkElement "Sat 1 Jan" (Some "Date")]
               (DOM.mkElement " 15:00 " (Some "Kick-off")) []).
    + constructor.
    + reflexivity.
    + repeat constructor. exists "Date". split; [reflexivity | discriminate].
    + reflexivity.
  - destruct (getKickOff_cases Scenario.detailScotland) as (Hspan & _).
    apply (Hspan [] (DOM.mkElement "15:00" (Some "KO")) []); try reflexivity.
    constructor.
  - destruct (getKickOff_cases
                (DOM.mkMatchDocument [] [DOM.mkElement "Sat 1 Jan" (Some "Date")] [] []))
      as (_ & _ & Hnone & _).
    apply Hnone; repeat constructor.
    exists "Date". split; [reflexivity | discriminate].
Defined.

Lemma goalOf_normal (score : string) (homeMin awayMin : option string) (goal : Goal.t) :
  goalOf score homeMin awayMin = Normal goal <->
  readsGoal (Some score) homeMin awayMin goal.
Proof.
  unfold goalOf, readsGoal. destruct goal as [minute team score'].
  destruct homeMin as [home|]; cbn.
  - split.
    + intros H. injection H as <- <- <-. auto.
    + intros (H & -> & ->). now injection H as ->.
  - destruct awayMin as [away|]; cbn.
    + split.
      * intros H. injection H as <- <- <-. eauto.
      * intros (H & -> & text & Haway & ->). injection H as ->. now injection Haway as ->.
    + split; [discriminate|]. intros (_ & _ & text & H & _). discriminate.
Qed.

Lemma readGoal_normal (score homeMin awayMin : option string) (goal : Goal.t) :
  bindC (textContentOf score) (fun text => goalOf text homeMin awayMin) = Normal goal <->
  readsGoal score homeMin awayMin goal.
Proof.
  destruct score as [text|]; cbn.
  - rewrite goalOf_normal. unfold readsGoal. reflexivity.
  - split; [discriminate|]. intros [H _]. discriminate.
Qed.

Lemma readGoal_throw (score homeMin awayMin : option string) :
  bindC (textContentOf score) (fun text => goalOf text homeMin awayMin) = Throw TypeError <->
  unreadableGoal score homeMin awayMin.
Proof.
  unfold unreadableGoal, goalOf.
  destruct score as [text|], homeMin as [home|], awayMin as [away|]; cbn;
    split; try discriminate; try tauto; try reflexivity;
    intros [H|[H1 H2]]; discriminate.
Qed.

(** X12: both readings of the goals give one goal per row of their layout,
    in page order: its score is the text of the score element, its team is
    home when the row has a minute on the home side (also when it has one
    on both sides) and away otherwise, and its minute is [parseInt] of
    that minute text.  A single row without score element, or without any
    minute, makes the reading throw. *)
Theorem goals_one_per_row (doc : DOM.MatchDocument) :
  (forall goals,
     scotlandGoals doc = Normal goals <->
     Forall2
       (fun tr goal =>
          readsGoal (nth_error (DOM.tdDivs tr) 1)
            (DOM.playerA_minute tr) (DOM.playerB_minute tr) goal)
       (DOM.eventsRows doc) goals) /\
  (scotlandGoals doc = Throw TypeError <->
   exists tr,
     In tr (DOM.eventsRows doc) /\
     unreadableGoal (nth_error (DOM.tdDivs tr) 1)
       (DOM.playerA_minute tr) (DOM.playerB_minute tr)) /\
  (forall goals,
     englandGoals doc = Normal goals <->
     Forall2
       (fun li goal =>
          readsGoal (DOM.scoreElement li)
            (DOM.firstScorer_minute li) (DOM.otherScorer_minute li) goal)
       (DOM.scorerItems doc) goals) /\
  (englandGoals doc = Throw TypeError <->
   exists li,
     In li (DOM.scorerItems doc) /\
     unreadableGoal (DOM.scoreElement li)
       (DOM.firstScorer_minute li) (DOM.otherScorer_minute li)).
Proof.
  unfold scotlandGoals, englandGoals. split; [|split; [|split]].
  - intros goals. rewrite mapC_normal.
    split; intros H; (eapply Forall2_impl; [|exact H]); intros tr goal; apply readGoal_normal.
  - rewrite mapC_throw.
    split; intros (tr & Hin & H); exists tr; (split; [exact Hin|]); now apply readGoal_throw.
  - intros goals. rewrite mapC_normal.
    split; intros H; (eapply Forall2_impl; [|exact H]); intros li goal; apply readGoal_normal.
  - rewrite mapC_throw.
    split; intros (li & Hin & H); exists li; (split; [exact Hin|]); now apply readGoal_throw.
Qed.

(** The goals of the scenario, and an item without minute. *)
Lemma goals_one_per_row_witness :
  englandGoals Scenario.detail = Normal Scenario.goals /\
  englandGoals Scenario.detailScotland = Throw TypeError.
Proof.
  split.
  - apply (proj1 (proj2 (proj2 (goals_one_per_row Scenario.detail)))).
    repeat constructor; cbn; eauto.
  - apply (proj2 (proj2 (proj2 (goals_one_per_row Scenario.detailScotland)))).
    eexists. split; [now left|]. now left.
Defined.

(* ================================================================= *)
(** ** Whole runs *)

Section Runs.
Context {TL : TrigramsLib}.
Variable web : Web.

Lemma length_rowsOf (sources : list SourceMatch.t) :
  List.length (rowsOf web sources) <= List.length sources.
Proof.
  induction sources as [|sourceMatch sources IH]; simpl; [lia|].
  destruct (passRow web sourceMatch); simpl; lia.
Qed.

Lemma rowsOf_app_short (sources1 sources2 : list SourceMatch.t) :
  List.length (rowsOf web sources1) <> List.length sources1 ->
  rowsOf web (sources1 ++ sources2) = rowsOf web sources1.
Proof.
  induction sources1 as [|sourceMatch sources1 IH]; [now intros []|].
  cbn [rowsOf app]. destruct (passRow web sourceMatch) as [values|e]; [|reflexivity].
  cbn [List.length]. intros H. rewrite IH; [reflexivity|]. lia.
Qed.

(** The loop ends normally exactly when every pass has its row. *)
Lemma mainLoop_completion (csv : list SourceMatch.t) (fuel : nat) :
  forall csvIndex b,
    indexShown web b -> stored b ->
    let sources := firstn fuel (skipn csvIndex csv) in
    snd (mainLoop web csv fuel csvIndex b) = Normal tt <->
    List.length (rowsOf web sources) = List.length sources.
Proof.
  induction fuel as [|fuel IH]; intros csvIndex b Hshown Hstored; cbv zeta.
  - cbn. tauto.
  - cbn [mainLoop]. pose proof (skipn_nth_error csv csvIndex) as Hskip.
    destruct (nth_error csv csvIndex) as [sourceMatch|].
    + rewrite Hskip. cbn [firstn rowsOf]. unfold bind.
      destruct (processMatch_row web sourceMatch b Hshown Hstored)
        as (Hshown' & Hstored' & Hrow).
      destruct (passRow web sourceMatch) as [values|e].
      * destruct Hrow as (Hnormal & _).
        destruct (processMatch web sourceMatch b) as [b' completion].
        cbn [fst snd] in *. subst completion.
        rewrite (IH (S csvIndex) b' Hshown' Hstored'). cbn [List.length]. lia.
      * destruct Hrow as (Hthrow & _).
        destruct (processMatch web sourceMatch b) as [b' completion].
        cbn [fst snd] in *. subst completion. cbn. split; [discriminate | lia].
    + rewrite Hskip. cbn. tauto.
Qed.

(** A run from an empty log, by the rows of its fixtures. *)
Lemma run_rows (csv : list SourceMatch.t) :
  written (actions (run web csv None)) = rowsOf web csv /\
  textarea_value (run web csv None) = logOf (rowsOf web csv) /\
  (snd (main web csv (pageLoad None)) = Normal tt <->
   List.length (rowsOf web csv) = List.length csv).
Proof.
  destruct (pageLoad_shown web None) as [Hshown Hstored].
  unfold run, main, bind, gets. cbn [fst].
  change (resumeOffset (textarea_value (pageLoad None))) with 0.
  rewrite Nat.sub_0_r.
  destruct (mainLoop_rows web csv (List.length csv) 0 (pageLoad None) Hshown Hstored)
    as (Htext & Hwritten & _).
  pose proof (mainLoop_completion csv (List.length csv) 0 (pageLoad None) Hshown Hstored)
    as Hcompletion.
  cbv zeta in *. change (skipn 0 csv) with csv in *. rewrite firstn_all in *.
  split; [exact Hwritten|]. split; [exact Htext | exact Hcompletion].
Qed.

End Runs.

(** X13: the rows of a run do not depend on what the run did before: a
    run over two lists of fixtures in a row writes the rows that a run
    over the first list writes, followed, when that run ends normally, by
    the rows that a run of its own over the second list writes; when the
    run over the first list throws, nothing follows. *)
Theorem run_app {TL : TrigramsLib} (web : Web) (csv1 csv2 : list SourceMatch.t) :
  written (actions (run web (csv1 ++ csv2) None))
  = (written (actions (run web csv1 None))
     ++ match snd (main web csv1 (pageLoad None)) with
        | Normal _ => written (actions (run web csv2 None))
        | Throw _ => []
        end)%list.
Proof.
  destruct (run_rows web (csv1 ++ csv2)) as (Hboth & _).
  destruct (run_rows web csv1) as (Hfirst & _ & Hcompletion).
  destruct (run_rows web csv2) as (Hsecond & _).
  rewrite Hboth, Hfirst, Hsecond.
  destruct (snd (main web csv1 (pageLoad None))) as [[]|e].
  - apply rowsOf_app. now apply Hcompletion.
  - rewrite app_nil_r. apply rowsOf_app_short.
    intros Hlength. apply Hcompletion in Hlength. discriminate.
Qed.

Lemma mainLoop_stored {TL : TrigramsLib}
    (web : Web) (csv : list SourceMatch.t) (saved : option string) (fuel csvIndex : nat) :
  stored (fst (mainLoop web csv fuel csvIndex (pageLoad saved))).
Proof.
  destruct (pageLoad_shown web saved) as [Hshown Hstored].
  now destruct (mainLoop_rows web csv fuel csvIndex (pageLoad saved) Hshown Hstored)
    as (_ & _ & Hb & _).
Qed.

(** X14: after any number of passes from a page load, localStorage holds
    the text of the textarea: reloading the page restores the textarea as
    it was. *)
Theorem reload_restores_textarea {TL : TrigramsLib}
    (web : Web) (csv : list SourceMatch.t) (saved : option string) (fuel csvIndex : nat) :
  let b := fst (mainLoop web csv fuel csvIndex (pageLoad saved)) in
  textarea_value (pageLoad (localStorage_csv b)) = textarea_value b /\
  textarea_value (pageLoad (localStorage_csv (run web csv saved)))
  = textarea_value (run web csv saved).
Proof.
  split.
  - symmetry. apply mainLoop_stored.
  - unfold run, main, bind, gets. cbn [fst]. symmetry. apply mainLoop_stored.
Qed.

Lemma resumeOffset_at_least (rows : list (list JS.Value)) :
  List.length rows <= resumeOffset (logOf rows).
Proof.
  rewrite resumeOffset_matches.
  induction rows as [|values rows IH]; [simpl; lia|].
  cbn [logOf List.length]. unfold rowText at 1.
  rewrite !matchAll_append, !length_app. simpl. lia.
Qed.

(** X15: a restart never goes back.  After [n] passes that ended normally,
    the offset computed from the restored textarea is at least [n],
    whatever the rows hold, so the resumed run writes no second row for any
    of the first [n] fixtures; and once a run has ended normally, running
    the script again in a reloaded page navigates nowhere and writes
    nothing. *)
Theorem restart_never_goes_back {TL : TrigramsLib}
    (web : Web) (csv : list SourceMatch.t) :
  (forall n b,
     n <= List.length csv ->
     runFor web csv n = (b, Normal tt) ->
     n <= resumeOffset (textarea_value (pageLoad (localStorage_csv b)))) /\
  (forall text,
     List.length csv <= resumeOffset text ->
     main web csv (pageLoad (Some text)) = (pageLoad (Some text), Normal tt)) /\
  (snd (main web csv (pageLoad None)) = Normal tt ->
   let saved := localStorage_csv (run web csv None) in
   main web csv (pageLoad saved) = (pageLoad saved, Normal tt)).
Proof.
  assert (Hfull : forall saved,
            List.length csv <= resumeOffset (textarea_value (pageLoad saved)) ->
            main web csv (pageLoad saved) = (pageLoad saved, Normal tt)).
  { intros saved Hoffset. unfold main, bind, gets.
    replace (List.length csv - resumeOffset (textarea_value (pageLoad saved))) with 0 by lia.
    reflexivity. }
  split; [|split].
  - intros n b Hn Hrun.
    destruct (pageLoad_shown web None) as [Hshown Hstored].
    destruct (mainLoop_rows web csv n 0 (pageLoad None) Hshown Hstored)
      as (Htext & _ & Hb & Hlength).
    unfold runFor in Hrun. rewrite Hrun in *. cbn [fst snd] in *.
    specialize (Hlength eq_refl). change (skipn 0 csv) with csv in *.
    rewrite length_firstn, Nat.min_l in Hlength by assumption.
    change (textarea_value (pageLoad None)) with "" in Htext. cbn [append] in Htext.
    replace (textarea_value (pageLoad (localStorage_csv b))) with (textarea_value b)
      by exact Hb.
    rewrite Htext. rewrite <- Hlength at 1. apply resumeOffset_at_least.
  - intros text Hoffset. apply Hfull. exact Hoffset.
  - intros Hnormal saved. apply Hfull.
    destruct (run_rows web csv) as (_ & Htext & Hcompletion).
    assert (Hreload : textarea_value (pageLoad (localStorage_csv (run web csv None)))
                      = textarea_value (run web csv None)).
    { unfold run, main, bind, gets. cbn [fst]. symmetry. apply mainLoop_stored. }
    subst saved. rewrite Hreload, Htext.
    rewrite <- (proj1 Hcompletion Hnormal) at 1. apply resumeOffset_at_least.
Qed.

Section RestartScenario.
Local Existing Instance SpecTrigrams.lib.

(** The run with a line break in a score text: the restart after one pass
    starts beyond the first fixture, and a finished run is not repeated. *)
Lemma restart_never_goes_back_witness :
  let site := Scenario.web [Scenario.candidate] Scenario.detailBroken in
  let csv := [Scenario.fixture; Scenario.fixture] in
  1 <= resumeOffset
         (textarea_value (pageLoad (localStorage_csv (fst (runFor site csv 1))))) /\
  main site csv (pageLoad (localStorage_csv (run site csv None)))
  = (pageLoad (localStorage_csv (run site csv None)), Normal tt).
Proof.
  intros site csv.
  destruct (restart_never_goes_back site csv) as (Hback & _ & Hdone).
  split.
  - apply (Hback 1 (fst (runFor site csv 1))); [simpl; lia|].
    vm_compute. reflexivity.
  - apply Hdone. vm_compute. reflexivity.
Defined.

End RestartScenario.

Section SameDate.
Context {TL : TrigramsLib}.
Variable web : Web.
Variable csv : list SourceMatch.t.
Variable url : string.
Hypothesis sameDate : Forall (fun sourceMatch => dateURL sourceMatch = url) csv.

Lemma nth_same_date (csvIndex : nat) (sourceMatch : SourceMatch.t) :
  nth_error csv csvIndex = Some sourceMatch -> dateURL sourceMatch = url.
Proof.
  intros H. rewrite Forall_forall in sameDate. apply sameDate.
  eapply nth_error_In, H.
Qed.

Lemma mainLoop_same_date (fuel : nat) :
  forall csvIndex b,
    indexFrame_href b = url ->
    navigations indexFrame (actions (fst (mainLoop web csv fuel csvIndex b)))
    = navigations indexFrame (actions b).
Proof.
  induction fuel as [|fuel IH]; intros csvIndex b Hb; [reflexivity|].
  cbn [mainLoop]. destruct (nth_error csv csvIndex) as [sourceMatch|] eqn:Hnth;
    [|reflexivity].
  pose proof (nth_same_date _ _ Hnth) as Hdate.
  pose proof (processMatch_same_date web sourceMatch b) as Hpass.
  pose proof (processMatch_href web sourceMatch b) as Hhref.
  unfold bind. destruct (processMatch web sourceMatch b) as [b' [[]|e]]; cbn [fst] in *.
  - rewrite IH by congruence. apply Hpass. congruence.
  - apply Hpass. congruence.
Qed.

End SameDate.

(** X16: a run from an empty log over fixtures that all have the same
    match date loads the index page once, in its first pass, however many
    fixtures there are and whether or not a pass throws. *)
Theorem same_date_one_index_load {TL : TrigramsLib}
    (web : Web) (csv : list SourceMatch.t) (url : string) :
  Forall (fun sourceMatch => dateURL sourceMatch = url) csv ->
  navigations indexFrame (actions (run web csv None))
  = match csv with [] => 0 | _ :: _ => 1 end.
Proof.
  intros Hsame. unfold run, main, bind, gets. cbn [fst].
  change (resumeOffset (textarea_value (pageLoad None))) with 0.
  rewrite Nat.sub_0_r.
  destruct csv as [|sourceMatch rest]; [reflexivity|].
  cbn [List.length mainLoop nth_error]. unfold bind.
  assert (Hdate : dateURL sourceMatch = url) by now inversion Hsame.
  pose proof (processMatch_href web sourceMatch (pageLoad None)) as Hhref.
  assert (Hfirst : navigations indexFrame
                     (actions (fst (processMatch web sourceMatch (pageLoad None)))) = 1).
  { pose proof (processMatch_run web sourceMatch (pageLoad None)) as Hrun.
    cbv zeta in Hrun. rewrite Hrun. clear Hrun.
    assert (Hidx : indexActions (pageLoad None) (dateURL sourceMatch)
                   = [Navigate indexFrame (dateURL sourceMatch); Sleep 1 2; ClickUK]).
    { unfold indexActions. cbn [indexFrame_href pageLoad].
      destruct (String.eqb_spec "about:blank" (dateURL sourceMatch)) as [Heq|];
        [|reflexivity].
      exfalso. now apply (dateURL_not_blank sourceMatch). }
    destruct (readDetail web _); cbn [fst actions];
      rewrite Hidx, !navigations_app, navigations_index_detailActions;
      unfold navigations; simpl; lia. }
  destruct (processMatch web sourceMatch (pageLoad None)) as [b' [[]|e]]; cbn [fst] in *.
  - rewrite (mainLoop_same_date web (sourceMatch :: rest) url Hsame) by congruence.
    exact Hfirst.
  - exact Hfirst.
Qed.

Section SameDateScenario.
Local Existing Instance SpecTrigrams.lib.

(** Three fixtures of one date. *)
Lemma same_date_one_index_load_witness :
  navigations indexFrame
    (actions (run (Scenario.web [Scenario.candidate] Scenario.detail)
                [Scenario.fixture; Scenario.fixture; Scenario.fixture] None))
  = 1.
Proof.
  exact (same_date_one_index_load
           (Scenario.web [Scenario.candidate] Scenario.detail)
           [Scenario.fixture; Scenario.fixture; Scenario.fixture]
           (dateURL Scenario.fixture)
           ltac:(repeat constructor)).
Defined.

End SameDateScenario.


Section FailedPassScenario.
Local Existing Instance SpecTrigrams.lib.


End FailedPassScenario.

(* ================================================================= *)
(** ** Quoted text *)

Lemma doubled_injective (text1 : list ascii) :
  forall text2, doubled text1 = doubled text2 -> text1 = text2.
Proof.
  unfold doubled.
  induction text1 as [|a1 text1 IH]; intros [|a2 text2] H; cbn [flat_map] in H.
  - reflexivity.
  - destruct (Ascii.eqb a2 JS.dquote); discriminate.
  - destruct (Ascii.eqb a1 JS.dquote); discriminate.
  - destruct (Ascii.eqb_spec a1 JS.dquote) as [H1|H1],
             (Ascii.eqb_spec a2 JS.dquote) as [H2|H2]; cbn [app] in H.
    + injection H as H. f_equal; [congruence | now apply IH].
    + injection H as Ha _. congruence.
    + injection H as Ha _. congruence.
    + injection H as -> H. f_equal. now apply IH.
Qed.

(** X18: the quoting of [writeCSV] loses nothing: two different texts are
    never written as the same column. *)
Theorem column_text_injective (text1 text2 : string) :
  text1 <> text2 -> column (JS.Str text1) <> column (JS.Str text2).
Proof.
  intros Hne H. apply Hne. apply (f_equal list_ascii_of_string) in H.
  rewrite !column_text in H. injection H as H.
  apply app_inj_tail in H as [H _]. apply doubled_injective in H.
  rewrite <- (string_of_list_ascii_of_string text1),
          <- (string_of_list_ascii_of_string text2).
  now rewrite H.
Qed.

(** A text that ends in a double quote, and the text with that quote
    written twice. *)
Lemma column_text_injective_witness :
  column (JS.Str (String "a" (JS.str JS.dquote)))
  <> column (JS.Str (String "a" (String JS.dquote (JS.str JS.dquote)))).
Proof.
  apply column_text_injective. discriminate.
Defined.

(* ================================================================= *)
(** ** The petitions script *)

(** X19: [write] of the petitions script writes every value as [writeCSV]
    does, except [null]: its test of [typeof] against the text null never
    holds, so [null] is written as the quoted text null and not as an
    empty column.  Rows without [null] are the same in both scripts. *)
Theorem write_differs_on_null :
  (forall value, value <> JS.Null -> Petitions.column value = column value) /\
  Petitions.column JS.Null
  = JS.str JS.dquote ++ "null" ++ JS.str JS.dquote /\
  column JS.Null = "" /\
  (forall values textarea,
     ~ In JS.Null values ->
     Petitions.write values textarea = textarea ++ rowText values).
Proof.
  assert (Hsame : forall value, value <> JS.Null -> Petitions.column value = column value).
  { intros [] H; try reflexivity. congruence. }
  split; [exact Hsame|]. split; [reflexivity|]. split; [reflexivity|].
  intros values textarea Hnull. unfold Petitions.write, rowText.
  do 3 f_equal. apply map_ext_in. intros value Hin. apply Hsame.
  intros ->. contradiction.
Qed.

(** A row of the petitions script, and the two columns of [null]. *)
Lemma write_differs_on_null_witness :
  Petitions.write [JS.Num (JS.ofInt 12); JS.Str "A petition"; JS.Undefined] ""
  = rowText [JS.Num (JS.ofInt 12); JS.Str "A petition"; JS.Undefined] /\
  Petitions.column JS.Null <> column JS.Null.
Proof.
  destruct write_differs_on_null as (_ & Hnull & Hempty & Hrows). split.
  - apply (Hrows _ ""). simpl. intuition discriminate.
  - rewrite Hnull, Hempty. discriminate.
Defined.

Module PetitionsFacts.
Import Petitions.


Lemma oneTimer_step (site : Site) (s : State) (event : Event) :
  oneTimer s -> oneTimer (step site s event).
Proof.
  intros Hone. destruct event as [timestamp| |]; cbn [step].
  - destruct (loading s) as [url|] eqn:Hloading; [|exact Hone].
    assert (Hnone : timers s = []).
    { destruct Hone as [H|(link & id & _ & _ & H)]; [exact H | congruence]. }
    destruct (listening s); [|now left].
    unfold process. cbn [location textarea timers nextTimer clickTimeout loading listening].
    destruct (writeItems timestamp (items (site url)) (textarea s)) as [text []];
      cbn [fst]; try now left.
    destruct (nextLink (site url)) as [link|]; cbn [fst]; [|now left].
    right. exists link, (nextTimer s). rewrite Hnone. auto.
  - destruct Hone as [H|(link & id & H & _)]; rewrite H; [now left | now left].
  - unfold abort. destruct (clickTimeout s) as [id|] eqn:Hclick; [|exact Hone].
    left. cbn [fst timers].
    destruct Hone as [H|(link & id' & H & Hid & _)]; rewrite H; [reflexivity|].
    rewrite Hclick in Hid. injection Hid as <-. cbn. now rewrite Nat.eqb_refl.
Qed.

Lemma oneTimer_after (site : Site) (events : list Event) :
  forall s, oneTimer s -> oneTimer (after site events s).
Proof.
  unfold after. induction events as [|event events IH]; intros s Hs; [exact Hs|].
  cbn [fold_left]. apply IH. now apply oneTimer_step.
Qed.

Lemma stopped_step (site : Site) (s : State) (event : Event) :
  stopped s ->
  stopped (step site s event) /\ textarea (step site s event) = textarea s.
Proof.
  intros [Hlistening Htimers]. destruct event as [timestamp| |]; cbn [step].
  - destruct (loading s); [|now repeat split].
    rewrite Hlistening. now repeat split.
  - rewrite Htimers. now repeat split.
  - unfold abort. destruct (clickTimeout s); [|now repeat split].
    cbn [fst]. unfold stopped. cbn. rewrite Htimers. now repeat split.
Qed.

Lemma stopped_after (site : Site) (events : list Event) :
  forall s, stopped s -> textarea (after site events s) = textarea s.
Proof.
  unfold after. induction events as [|event events IH]; intros s Hs; [reflexivity|].
  cbn [fold_left]. destruct (stopped_step site s event Hs) as [Hstopped Htext].
  now rewrite IH.
Qed.




End PetitionsFacts.

(** X20: once [process] has found a next link, a call of [abort()] ends
    the crawl for good: whatever happens afterwards, a page that was
    loading arrives, a timer would fire, nothing more is written.  Before
    that, while the first page is loading, [clickTimeout] has never been
    assigned: [abort()] throws a [ReferenceError] and changes nothing, so
    the crawl goes on. *)
Theorem abort_ends_the_crawl
    (site : Petitions.Site) (here : string) (before later : list Petitions.Event) :
  let s := Petitions.after site before (Petitions.start here) in
  (Petitions.clickTimeout s <> None ->
   snd (Petitions.abort s) = Petitions.Returned /\
   Petitions.textarea (Petitions.after site (Petitions.Abort :: later) s)
   = Petitions.textarea s) /\
  (Petitions.clickTimeout s = None ->
   snd (Petitions.abort s) = Petitions.ReferenceError /\
   Petitions.after site (Petitions.Abort :: later) s = Petitions.after site later s).
Proof.
  intros s.
  assert (Hone : Petitions.oneTimer s)
    by (apply PetitionsFacts.oneTimer_after; now left).
  split.
  - intros Hclick. destruct (Petitions.clickTimeout s) as [id|] eqn:Hid; [|congruence].
    assert (Habort : Petitions.abort s
                     = (Petitions.mkState (Petitions.textarea s) false (Some id)
                          (filter (fun timer => negb (Nat.eqb (fst timer) id))
                             (Petitions.timers s))
                          (Petitions.nextTimer s) (Petitions.location s)
                          (Petitions.loading s),
                        Petitions.Returned))
      by (unfold Petitions.abort; now rewrite Hid).
    split; [now rewrite Habort|].
    change (Petitions.after site (Petitions.Abort :: later) s)
      with (Petitions.after site later (fst (Petitions.abort s))).
    rewrite Habort. cbn [fst].
    rewrite (PetitionsFacts.stopped_after site later); [reflexivity|].
    split; [reflexivity|]. cbn [Petitions.timers].
    destruct Hone as [H|(link & id' & H & Hid' & _)]; rewrite H; [reflexivity|].
    rewrite Hid in Hid'. injection Hid' as <-. cbn. now rewrite Nat.eqb_refl.
  - intros Hclick. unfold Petitions.after. cbn [fold_left Petitions.step].
    unfold Petitions.abort. rewrite Hclick. now split.
Qed.

(** A list of two pages.  [abort()] while the first page is loading stops
    nothing; after the first page it stops the crawl. *)
Lemma abort_ends_the_crawl_witness :
  let site url :=
    if String.eqb url "page1"
    then Petitions.mkPage [Petitions.mkItem (Some (Some "12")) (Some "One")] (Some "page2")
    else Petitions.mkPage [Petitions.mkItem (Some (Some "7")) (Some "Two")] None in
  let t := JS.mkDate 2018 0 1 15 0 7 45 in
  Petitions.textarea
    (Petitions.after site
       [Petitions.Abort; Petitions.Loaded t; Petitions.Fire; Petitions.Loaded t]
       (Petitions.start "page1"))
  = Petitions.textarea
      (Petitions.after site [Petitions.Loaded t; Petitions.Fire; Petitions.Loaded t]
         (Petitions.start "page1")) /\
  Petitions.textarea
    (Petitions.after site [Petitions.Abort; Petitions.Fire; Petitions.Loaded t]
       (Petitions.after site [Petitions.Loaded t] (Petitions.start "page1")))
  = Petitions.textarea
      (Petitions.after site [Petitions.Loaded t] (Petitions.start "page1")).
Proof.
  intros site t. split.
  - destruct (abort_ends_the_crawl site "page1" []
                [Petitions.Loaded t; Petitions.Fire; Petitions.Loaded t])
      as [_ Hearly].
    destruct (Hearly eq_refl) as [_ Hsame].
    exact (f_equal Petitions.textarea Hsame).
  - destruct (abort_ends_the_crawl site "page1" [Petitions.Loaded t]
                [Petitions.Fire; Petitions.Loaded t]) as [Hstop _].
    destruct Hstop as [_ Htext]; [discriminate | exact Htext].
Defined.

